(** * Duplicates: a shallow embedding of [dups.py]

    The program scans directory trees, fingerprints every file, keeps a
    resumable path-to-record mapping, reports files sharing a fingerprint
    and drives an interactive delete/move workflow.  The development
    follows the source function by function:

    - [file_hash], [collect_file_info], [save_file_info],
      [verify_file_info], [find_duplicates_from_info],
      [group_duplicates_by_directory] and [handle_duplicates] carry the
      names of the Python functions they embed;
    - a Python [dict] is an association list in insertion order with
      unique keys (iteration order matters to the duplicate detector);
    - the file system is a finite map from path strings to nodes; what
      the operating system refuses for reasons the map does not show
      (permissions, missing parent directories) is the component
      [w_denied] of the world;
    - exceptions that the source does not catch are the [Raise] results
      of a small error type. *)

From Stdlib Require Import ZArith String Ascii List Lia Permutation.
From stdpp Require Import base option list gmap strings.

Local Open Scope Z_scope.

(** ** Python values used by the program *)

(** Paths, names, hashes and console lines are Python [str] values; the
    model covers ASCII strings. *)

(** The value stored per path: the literal built at lines 91-96. *)
Module FileInfo.
Record t : Type := Build {
  name : string;
  hash : string;
  size : Z;
  modified_time : Z
}.
End FileInfo.

(** ** Python dictionaries

    [file_info_dict] maps a path to its record.  Python dictionaries
    iterate in insertion order and an assignment to a key that is present
    replaces the value in place. *)

Abbreviation pydict V := (list (string * V)).

Definition keys {V} (d : pydict V) : list string := d.*1.

Fixpoint dict_get {V} (d : pydict V) (k : string) : option V :=
  match d with
  | [] => None
  | (k', v) :: d' => if decide (k' = k) then Some v else dict_get d' k
  end.

(** [k in d] *)
Definition dict_mem {V} (d : pydict V) (k : string) : bool :=
  bool_decide (k ∈ keys d).

(** [d[k] = v] *)
Fixpoint dict_set {V} (k : string) (v : V) (d : pydict V) : pydict V :=
  match d with
  | [] => [(k, v)]
  | (k', v') :: d' =>
      if decide (k' = k) then (k, v) :: d' else (k', v') :: dict_set k v d'
  end.

(** Python's [==] on dictionaries ignores the insertion order. *)
Definition dict_eq {V} (d1 d2 : pydict V) : Prop :=
  ∀ k, dict_get d1 k = dict_get d2 k.

(** The invariant of every Python dictionary: keys are unique. *)
Definition dict_wf {V} (d : pydict V) : Prop := NoDup (keys d).

Abbreviation file_info_dict := (pydict FileInfo.t).

(** ** Duplicate detector (lines 141-161)

    The function also logs and prints each pair; only the returned list
    is modelled. *)

(** The loop at lines 146-152: [hashes] maps a hash to the first path seen
    with it, [duplicates] grows at its end. *)
Fixpoint find_duplicates_loop (items : list (string * FileInfo.t))
    (hashes : gmap string string) (duplicates : list (string * string))
    : list (string * string) :=
  match items with
  | [] => duplicates
  | (file_path, file_info) :: items' =>
      let file_hash_result := FileInfo.hash file_info in
      match hashes !! file_hash_result with
      | Some first_seen =>
          find_duplicates_loop items' hashes
            (duplicates ++ [(file_path, first_seen)])
      | None =>
          find_duplicates_loop items'
            (<[file_hash_result := file_path]> hashes) duplicates
      end
  end.

Definition find_duplicates_from_info (d : file_info_dict)
    : list (string * string) :=
  find_duplicates_loop d ∅ [].

(** Paths of [d] carrying hash [h], in iteration order. *)
Definition paths_with_hash (h : string) (d : file_info_dict) : list string :=
  (filter (λ kv, FileInfo.hash kv.2 = h) d).*1.

(** The first path of [d], in iteration order, carrying hash [h]. *)
Definition first_with_hash (h : string) (d : file_info_dict) : option string :=
  head (paths_with_hash h d).

(** The hash recorded in [d] for the first member of a pair. *)
Definition pair_hash (d : file_info_dict) (pr : string * string)
    : option string :=
  FileInfo.hash <$> dict_get d pr.1.

(** ** Strings: the [str] and [os.path] operations the program calls *)

Definition slash : ascii := "/"%char.
Definition newline : string := String (ascii_of_nat 10) "".

(** A [str] is modelled by its UTF-8 encoding, one [ascii] per byte.

    The white space of [str.strip()] is every code point for which
    [str.isspace()] holds: U+0009 to U+000D, U+001C to U+0020, U+0085,
    U+00A0, U+1680, U+2000 to U+200A, U+2028, U+2029, U+202F, U+205F and
    U+3000.  [is_space] is the part in one byte. *)
Definition is_space (c : ascii) : bool :=
  let n := nat_of_ascii c in
  ((9 <=? n)%nat && (n <=? 13)%nat) || ((28 <=? n)%nat && (n <=? 32)%nat).

(** White space encoded in two bytes, after the lead byte C2: U+0085 and
    U+00A0. *)
Definition is_space_c2 (b : N) : bool := ((b =? 133) || (b =? 160))%N.

(** White space encoded in three bytes: U+1680 is E1 9A 80; U+2000 to
    U+200A, U+2028, U+2029 and U+202F are E2 80 followed by 80 to 8A, A8,
    A9 or AF; U+205F is E2 81 9F; U+3000 is E3 80 80. *)
Definition is_space_3 (b1 b2 b3 : N) : bool :=
  (((b1 =? 225) && (b2 =? 154) && (b3 =? 128))
   || ((b1 =? 226) && (b2 =? 128)
       && (((128 <=? b3) && (b3 <=? 138)) || (b3 =? 168) || (b3 =? 169)
           || (b3 =? 175)))
   || ((b1 =? 226) && (b2 =? 129) && (b3 =? 159))
   || ((b1 =? 227) && (b2 =? 128) && (b3 =? 128)))%N.

(** The string without its first code point, when that is white space. *)
Definition drop_leading_space (s : string) : option string :=
  match s with
  | EmptyString => None
  | String c1 s1 =>
      if is_space c1 then Some s1
      else
        match s1 with
        | EmptyString => None
        | String c2 s2 =>
            if ((N_of_ascii c1 =? 194)%N && is_space_c2 (N_of_ascii c2))%bool
            then Some s2
            else
              match s2 with
              | EmptyString => None
              | String c3 s3 =>
                  if is_space_3 (N_of_ascii c1) (N_of_ascii c2) (N_of_ascii c3)
                  then Some s3 else None
              end
        end
  end.

(** The same on a string whose bytes are in reverse order: its first
    byte is the last byte of the last code point. *)
Definition drop_trailing_space_rev (s : string) : option string :=
  match s with
  | EmptyString => None
  | String c1 s1 =>
      if is_space c1 then Some s1
      else
        match s1 with
        | EmptyString => None
        | String c2 s2 =>
            if ((N_of_ascii c2 =? 194)%N && is_space_c2 (N_of_ascii c1))%bool
            then Some s2
            else
              match s2 with
              | EmptyString => None
              | String c3 s3 =>
                  if is_space_3 (N_of_ascii c3) (N_of_ascii c2) (N_of_ascii c1)
                  then Some s3 else None
              end
        end
  end.

(** Repeated removal, at most once per byte of the string. *)
Fixpoint drop_while (drop : string → option string) (fuel : nat) (s : string)
    : string :=
  match fuel with
  | O => s
  | S fuel' =>
      match drop s with
      | Some s' => drop_while drop fuel' s'
      | None => s
      end
  end.

Definition lstrip (s : string) : string :=
  drop_while drop_leading_space (String.length s) s.

Definition rstrip (s : string) : string :=
  String.rev
    (drop_while drop_trailing_space_rev (String.length s) (String.rev s)).

Definition strip (s : string) : string := rstrip (lstrip s).

(** [str.lower()] on the ASCII letters.  Python also lower-cases letters
    outside ASCII; none of them becomes one of the one-letter answers
    [s], [d], [m], [i] that the program compares with (the lower case of
    U+0130 is two code points), and the bytes of their encodings are
    left as they are. *)
Definition lower_ascii (c : ascii) : ascii :=
  let n := nat_of_ascii c in
  if ((65 <=? n)%nat && (n <=? 90)%nat)%bool then ascii_of_nat (n + 32) else c.

Fixpoint lower (s : string) : string :=
  match s with
  | EmptyString => EmptyString
  | String c s' => String (lower_ascii c) (lower s')
  end.

(** [s.startswith(prefix)] *)
Definition startswith (s prefix : string) : bool := String.prefix prefix s.

Fixpoint endswith_slash (s : string) : bool :=
  match s with
  | EmptyString => false
  | String c EmptyString => bool_decide (c = slash)
  | String _ s' => endswith_slash s'
  end.

(** [s.rstrip('/')] *)
Fixpoint rstrip_slash (s : string) : string :=
  match s with
  | EmptyString => EmptyString
  | String c s' =>
      match rstrip_slash s' with
      | EmptyString =>
          if bool_decide (c = slash) then EmptyString else String c EmptyString
      | r => String c r
      end
  end.

(** [posixpath.split] before its clean-up of the head: [(p[:i], p[i:])]
    with [i = p.rfind('/') + 1]. *)
Fixpoint split_at_last_slash (p : string) : string * string :=
  match p with
  | EmptyString => (EmptyString, EmptyString)
  | String c p' =>
      match split_at_last_slash p' with
      | (EmptyString, _) =>
          if bool_decide (c = slash) then (String c EmptyString, p')
          else (EmptyString, p)
      | (head, tail) => (String c head, tail)
      end
  end.

(** [os.path.basename] *)
Definition basename (p : string) : string := (split_at_last_slash p).2.

(** [os.path.dirname]: trailing slashes of the head are removed unless the
    head consists of slashes only. *)
Definition dirname (p : string) : string :=
  let head := (split_at_last_slash p).1 in
  match rstrip_slash head with
  | EmptyString => head
  | stripped => stripped
  end.

(** [os.path.join(a, b)] for two components. *)
Definition path_join (a b : string) : string :=
  if startswith b "/" then b
  else match a with
       | EmptyString => b
       | _ => if endswith_slash a then a +:+ b else a +:+ "/" +:+ b
       end.

(** ** Logging and exceptions *)

Inductive level : Type := INFO | WARNING | ERROR.

Record LogRecord : Type := Log { levelname : level; message : string }.

Inductive exn : Type :=
| FileNotFoundError (p : string)
| PermissionError (p : string)
| IsADirectoryError (p : string)
| NotADirectoryError (p : string)
| FileExistsError (p : string)
| ValueError (text : string)
| ShutilError (text : string)
| ZeroDivisionError
| EOFError.

(** [str(e)], as interpolated into messages. *)
Definition exn_str (e : exn) : string :=
  match e with
  | FileNotFoundError p => "[Errno 2] No such file or directory: '" +:+ p +:+ "'"
  | PermissionError p => "[Errno 13] Permission denied: '" +:+ p +:+ "'"
  | IsADirectoryError p => "[Errno 21] Is a directory: '" +:+ p +:+ "'"
  | NotADirectoryError p => "[Errno 20] Not a directory: '" +:+ p +:+ "'"
  | FileExistsError p => "[Errno 17] File exists: '" +:+ p +:+ "'"
  | ValueError text => text
  | ShutilError text => text
  | ZeroDivisionError => "integer modulo by zero"
  | EOFError => "EOF when reading a line"
  end.

Inductive result (A : Type) : Type :=
| Ok (a : A)
| Raise (e : exn).
Arguments Ok {A} a.
Arguments Raise {A} e.

(** ** The file system

    A flat finite map from path strings to nodes.  A regular file carries
    its bytes, whether the process may read it, and its modification
    time (the float of [os.path.getmtime], carried as an opaque stamp). *)

Inductive node : Type :=
| RegularFile (data : list Byte.byte) (readable : bool) (mtime : Z)
| Directory.

Abbreviation filesystem := (gmap string node).

Definition path_exists (fs : filesystem) (p : string) : bool :=
  bool_decide (is_Some (fs !! p)).

Definition isdir (fs : filesystem) (p : string) : bool :=
  match fs !! p with
  | Some Directory => true
  | _ => false
  end.

(** [open(p, "rb")] followed by reading the whole file. *)
Definition open_rb (fs : filesystem) (p : string) : result (list Byte.byte) :=
  match fs !! p with
  | None => Raise (FileNotFoundError p)
  | Some Directory => Raise (IsADirectoryError p)
  | Some (RegularFile data readable _) =>
      if readable then Ok data else Raise (PermissionError p)
  end.

(** [mmap.mmap(f.fileno(), 0, access=ACCESS_READ)]: a view of the whole
    file; the call raises [ValueError] on a file of length zero. *)
Definition mmap_whole (data : list Byte.byte) : result (list Byte.byte) :=
  match data with
  | [] => Raise (ValueError "cannot mmap an empty file")
  | _ => Ok data
  end.

(** [os.path.getsize] and [os.path.getmtime].  What they return for a
    directory depends on the platform; the program calls them only after
    [file_hash] succeeded, which it never does on a directory. *)
Definition getsize (fs : filesystem) (p : string) : result Z :=
  match fs !! p with
  | None => Raise (FileNotFoundError p)
  | Some Directory => Ok 4096
  | Some (RegularFile data _ _) => Ok (Z.of_nat (length data))
  end.

Definition getmtime (fs : filesystem) (p : string) : result Z :=
  match fs !! p with
  | None => Raise (FileNotFoundError p)
  | Some Directory => Ok 0
  | Some (RegularFile _ _ mtime) => Ok mtime
  end.

(** ** Fingerprinter (lines 54-64) *)

Section Fingerprinter.

(** [xxhash.xxh64().update(bytes).hexdigest()], a function of the bytes
    supplied by the xxhash package. *)
Variable xxh64_hexdigest : list Byte.byte → string.

(** The body of the [try] block. *)
Definition file_hash_try (fs : filesystem) (file_path : string)
    : result string :=
  match open_rb fs file_path with
  | Raise e => Raise e
  | Ok data =>
      match mmap_whole data with
      | Raise e => Raise e
      | Ok mm => Ok (xxh64_hexdigest mm)
      end
  end.

(** [file_hash] returns the digest, or [None] after logging the
    exception; the second component is what it appends to the log. *)
Definition file_hash (fs : filesystem) (file_path : string)
    : option string * list LogRecord :=
  match file_hash_try fs file_path with
  | Ok digest => (Some digest, [])
  | Raise e =>
      (None, [Log ERROR ("Error reading " +:+ file_path +:+ ": " +:+ exn_str e)])
  end.

(** Truth value of [file_hash_result] in [if file_hash_result:]. *)
Definition truthy (o : option string) : bool :=
  match o with
  | None => false
  | Some s => negb (bool_decide (s = ""))
  end.

(** ** Scanner (lines 75-81)

    [os_walk directory] is the sequence of [(root, files)] that
    [os.walk] yields for a directory. *)

Definition ignored (ignore_list : list string) (file : string) : bool :=
  existsb (startswith file) ignore_list.

Definition scan (ignore_list : list string)
    (os_walk : string → list (string * list string))
    (directories : list string) : list string :=
  directory ← directories;
  '(root, files) ← os_walk directory;
  file ← filter (λ f, ignored ignore_list f = false) files;
  [path_join root file].

(** ** Fingerprint coordinator (lines 66-109)

    The state of the loop: the working mapping and the content of the
    temp file ([None] while the file does not exist).  The temp file is
    taken to lie outside the scanned trees, so writing it does not
    change what the workers read; [collect_live] further down does
    without this assumption, and both agree when the temp file is not
    among the submitted paths. *)

Record collect_state : Type := CollectState {
  working : file_info_dict;
  temp_content : option file_info_dict
}.

(** Lines 70-73. *)
Definition load_progress (temp_file : option file_info_dict)
    : file_info_dict :=
  match temp_file with
  | Some saved => saved
  | None => []
  end.

(** Line 84: the paths handed to [executor.submit(file_hash, _)]. *)
Definition submitted (existing : file_info_dict) (file_paths : list string)
    : list string :=
  filter (λ p, dict_mem existing p = false) file_paths.

(** Lines 90-97. *)
Definition merge_result (fs : filesystem) (file_path : string)
    (file_hash_result : option string) (d : file_info_dict)
    : result file_info_dict :=
  match file_hash_result with
  | Some digest =>
      if truthy file_hash_result then
        match getsize fs file_path with
        | Raise e => Raise e
        | Ok sz =>
            match getmtime fs file_path with
            | Raise e => Raise e
            | Ok mt =>
                Ok (dict_set file_path
                      (FileInfo.Build (basename file_path) digest sz mt) d)
            end
        end
      else Ok d
  | None => Ok d
  end.

(** Lines 100-103: Python's [%] has the sign of the divisor, like
    [Z.modulo], and raises on a zero divisor. *)
Definition save_periodically (save_interval : Z) (st : collect_state)
    : result collect_state :=
  if save_interval =? 0 then Raise ZeroDivisionError
  else if Z.of_nat (length (working st)) mod save_interval =? 0
       then Ok (CollectState (working st) (Some (working st)))
       else Ok st.

(** One iteration of [for future in as_completed(futures)]. *)
Definition collect_step (save_interval : Z) (fs : filesystem)
    (st : collect_state) (file_path : string) : result collect_state :=
  match merge_result fs file_path (file_hash fs file_path).1 (working st) with
  | Raise e => Raise e
  | Ok d => save_periodically save_interval (CollectState d (temp_content st))
  end.

Fixpoint collect_loop (save_interval : Z) (fs : filesystem)
    (st : collect_state) (completed : list string) : result collect_state :=
  match completed with
  | [] => Ok st
  | file_path :: completed' =>
      match collect_step save_interval fs st file_path with
      | Raise e => Raise e
      | Ok st' => collect_loop save_interval fs st' completed'
      end
  end.

(** Lines 105-109: the final save and the returned mapping. *)
Definition finish (st : collect_state) : collect_state :=
  CollectState (working st) (Some (working st)).

(** Every delivery order is a permutation of what was submitted. *)
Definition completion_order (as_completed : list string → list string)
    : Prop :=
  ∀ l, as_completed l ≡ₚ l.

(** Lines 83-109, on the scanned [file_paths].  [as_completed] is the
    order in which the pool delivers the submitted paths; every run uses
    some permutation of them.  The progress bar is not modelled, and the
    error records that the workers log interleave in no fixed order. *)
Definition collect_scanned (save_interval : Z) (fs : filesystem)
    (temp_file : option file_info_dict) (file_paths : list string)
    (as_completed : list string → list string) : result collect_state :=
  let existing := load_progress temp_file in
  let futures := submitted existing file_paths in
  match collect_loop save_interval fs (CollectState existing temp_file)
          (as_completed futures) with
  | Raise e => Raise e
  | Ok st => Ok (finish st)
  end.

(** [collect_file_info(directories, temp_file)]: the result holds the
    returned mapping and the final content of the temp file. *)
Definition collect_file_info (save_interval : Z) (ignore_list : list string)
    (os_walk : string → list (string * list string)) (fs : filesystem)
    (temp_file : option file_info_dict) (directories : list string)
    (as_completed : list string → list string) : result collect_state :=
  collect_scanned save_interval fs temp_file
    (scan ignore_list os_walk directories) as_completed.

(** *** What the loop computes

    The record merged for a path whose fingerprint succeeded, and the
    mapping after a sequence of results, without the bookkeeping of
    saves and exceptions. *)

Definition merged_record (fs : filesystem) (file_path : string)
    : option FileInfo.t :=
  match fs !! file_path with
  | Some (RegularFile data _ mtime) =>
      match (file_hash fs file_path).1 with
      | Some digest =>
          if truthy (Some digest) then
            Some (FileInfo.Build (basename file_path) digest
                    (Z.of_nat (length data)) mtime)
          else None
      | None => None
      end
  | _ => None
  end.

Definition merge_one (fs : filesystem) (d : file_info_dict)
    (file_path : string) : file_info_dict :=
  match merged_record fs file_path with
  | Some r => dict_set file_path r d
  | None => d
  end.

Definition merge_all (fs : filesystem) (d : file_info_dict)
    (completed : list string) : file_info_dict :=
  foldl (merge_one fs) d completed.



(** ** Checkpoint verification (lines 125-139)

    The result is the verified mapping and the records appended to the
    log, those of [file_hash] included. *)

Definition verify_step (fs : filesystem)
    (acc : file_info_dict * list LogRecord) (item : string * FileInfo.t)
    : file_info_dict * list LogRecord :=
  let '(verified_file_info_dict, log) := acc in
  let '(file_path, file_info) := item in
  if path_exists fs file_path then
    let '(current_hash, hash_log) := file_hash fs file_path in
    if bool_decide (current_hash = Some (FileInfo.hash file_info)) then
      (dict_set file_path file_info verified_file_info_dict, log ++ hash_log)
    else
      (verified_file_info_dict,
       log ++ hash_log ++ [Log WARNING ("File hash changed: " +:+ file_path)])
  else
    (verified_file_info_dict,
     log ++ [Log WARNING ("File not found: " +:+ file_path)]).

Definition verify_file_info (fs : filesystem) (d : file_info_dict)
    : file_info_dict * list LogRecord :=
  foldl (verify_step fs) ([], []) d.

(** A record is kept when its file exists and its recomputed
    fingerprint equals the stored hash. *)
Definition still_valid (fs : filesystem) (item : string * FileInfo.t)
    : bool :=
  path_exists fs item.1
  && bool_decide ((file_hash fs item.1).1 = Some (FileInfo.hash item.2)).

(** The two report categories of the verification. *)
Definition hash_changed (file_path : string) : LogRecord :=
  Log WARNING ("File hash changed: " +:+ file_path).

Definition not_found (file_path : string) : LogRecord :=
  Log WARNING ("File not found: " +:+ file_path).

(** What one record contributes to the log. *)
Definition verify_report (fs : filesystem) (item : string * FileInfo.t)
    : list LogRecord :=
  if path_exists fs item.1 then
    (file_hash fs item.1).2
    ++ (if still_valid fs item then [] else [hash_changed item.1])
  else [not_found item.1].

End Fingerprinter.

(** ** The interactive part: console, log and a mutable file system *)

(** System calls that change the file system, in the order issued. *)
Inductive syscall : Type :=
| SysRemove (p : string)
| SysMove (src dst : string)
| SysMakedirs (p : string)
| SysWrite (p : string).

(** [w_denied fs call] is the exception with which the operating system
    refuses [call] on the tree [fs] for a reason the map of nodes does
    not show: no permission on the file or on its directory, a read-only
    medium, a missing parent directory; [None] when it lets the call
    through. *)
Record world : Type := World {
  w_fs : filesystem;
  w_stdin : list string;        (* lines still to be read by [input] *)
  w_stdout : list string;       (* what [print] and [input] have written *)
  w_log : list LogRecord;
  w_syscalls : list syscall;
  w_clock : Z;
  w_denied : filesystem → syscall → option exn
}.

(** A computation either returns or raises; the world at that point is
    kept in both cases. *)
Definition io (A : Type) : Type := world → (exn + A) * world.

Definition io_ret {A} (a : A) : io A := λ w, (inr a, w).

Definition io_bind {A B} (m : io A) (k : A → io B) : io B :=
  λ w, match m w with
       | (inl e, w') => (inl e, w')
       | (inr a, w') => k a w'
       end.

#[export] Instance io_mret : MRet io := @io_ret.
#[export] Instance io_mbind : MBind io := λ A B k m, io_bind m k.

(** [try: body except Exception as e: handler(e)] *)
Definition try_except {A} (body : io A) (handler : exn → io A) : io A :=
  λ w, match body w with
       | (inl e, w') => handler e w'
       | r => r
       end.

Definition print (s : string) : io unit :=
  λ w, (inr (), World (w_fs w) (w_stdin w) (w_stdout w ++ [s]) (w_log w)
                  (w_syscalls w) (w_clock w) (w_denied w)).

Definition logging (l : level) (s : string) : io unit :=
  λ w, (inr (), World (w_fs w) (w_stdin w) (w_stdout w) (w_log w ++ [Log l s])
                  (w_syscalls w) (w_clock w) (w_denied w)).

(** [input(prompt)]: writes the prompt, reads one line. *)
Definition input (prompt : string) : io string :=
  λ w, match w_stdin w with
       | [] => (inl EOFError,
                World (w_fs w) [] (w_stdout w ++ [prompt]) (w_log w)
                  (w_syscalls w) (w_clock w) (w_denied w))
       | line :: rest =>
           (inr line,
            World (w_fs w) rest (w_stdout w ++ [prompt]) (w_log w)
              (w_syscalls w) (w_clock w) (w_denied w))
       end.

(** The outcome of a call on a tree: the failure that the nodes
    themselves cause, else the refusal of the operating system, else the
    changed tree. *)
Definition attempt (denied : filesystem → syscall → option exn)
    (call : syscall) (effect : filesystem → result filesystem)
    (fs : filesystem) : result filesystem :=
  match effect fs with
  | Raise e => Raise e
  | Ok fs' =>
      match denied fs call with
      | Some e => Raise e
      | None => Ok fs'
      end
  end.

(** A system call is recorded, then either changes the file system or
    raises and leaves it as it was. *)
Definition do_syscall (call : syscall) (effect : filesystem → result filesystem)
    : io unit :=
  λ w, let calls := w_syscalls w ++ [call] in
       match attempt (w_denied w) call effect (w_fs w) with
       | Ok fs' => (inr (), World fs' (w_stdin w) (w_stdout w) (w_log w)
                              calls (w_clock w) (w_denied w))
       | Raise e => (inl e, World (w_fs w) (w_stdin w) (w_stdout w) (w_log w)
                              calls (w_clock w) (w_denied w))
       end.

Definition os_path_exists (p : string) : io bool :=
  λ w, (inr (path_exists (w_fs w) p), w).

Definition os_path_isdir (p : string) : io bool :=
  λ w, (inr (isdir (w_fs w) p), w).

(** [os.remove] on the nodes.  Paths are the keys of the map: two
    spellings of one path, or two links to one file, are two entries. *)
Definition remove_effect (p : string) (fs : filesystem) : result filesystem :=
  match fs !! p with
  | None => Raise (FileNotFoundError p)
  | Some Directory => Raise (IsADirectoryError p)
  | Some (RegularFile _ _ _) => Ok (delete p fs)
  end.

Definition os_remove (p : string) : io unit :=
  do_syscall (SysRemove p) (remove_effect p).

(** [os.makedirs]; the flat map does not track the ancestors it would
    create. *)
Definition makedirs_effect (p : string) (fs : filesystem) : result filesystem :=
  match p with
  | EmptyString => Raise (FileNotFoundError p)
  | _ =>
      match fs !! p with
      | Some _ => Raise (FileExistsError p)
      | None => Ok (<[p := Directory]> fs)
      end
  end.

Definition os_makedirs (p : string) : io unit :=
  do_syscall (SysMakedirs p) (makedirs_effect p).

(** [shutil.move(src, dst)]: into [dst] when it is a directory (refusing
    to overwrite an entry of the same name), otherwise a rename onto
    [dst]. *)
Definition move_effect (src dst : string) (fs : filesystem)
    : result filesystem :=
  let real_dst :=
    if isdir fs dst then path_join dst (basename (rstrip_slash src)) else dst in
  if isdir fs dst && path_exists fs real_dst then
    Raise (ShutilError
             ("Destination path '" +:+ real_dst +:+ "' already exists"))
  else
    match fs !! src with
    | None => Raise (FileNotFoundError src)
    | Some n =>
        match n, fs !! real_dst with
        | Directory, Some (RegularFile _ _ _) => Raise (NotADirectoryError src)
        | _, _ => Ok (<[real_dst := n]> (delete src fs))
        end
    end.

Definition shutil_move (src dst : string) : io unit :=
  do_syscall (SysMove src dst) (move_effect src dst).

(** ** Checkpoint store: saving a report (lines 111-118) *)

Section CheckpointStore.

(** [json.dumps(d, indent=4)] as bytes, supplied by the json module. *)
Variable json_dumps : file_info_dict → list Byte.byte.

(** [with open(p, 'w') as f: json.dump(d, f, indent=4)] on the nodes. *)
Definition write_effect (p : string) (d : file_info_dict) (now : Z)
    (fs : filesystem) : result filesystem :=
  match fs !! p with
  | Some Directory => Raise (IsADirectoryError p)
  | Some (RegularFile _ readable _) =>
      Ok (<[p := RegularFile (json_dumps d) readable now]> fs)
  | None => Ok (<[p := RegularFile (json_dumps d) true now]> fs)
  end.

Definition write_json (p : string) (d : file_info_dict) : io unit :=
  λ w, do_syscall (SysWrite p) (write_effect p d (w_clock w)) w.

Definition default_report : string := "file_info_report.json".

Definition save_file_info (d : file_info_dict) (output_file : string)
    : io unit :=
  is_dir ← os_path_isdir output_file;
  output_file ←
    (if is_dir : bool then
       let text := "Error: " +:+ output_file +:+
         " is a directory. Saving to default file 'file_info_report.json'." in
       print text;;
       logging ERROR text;;
       mret (path_join output_file default_report)
     else mret output_file);
  write_json output_file d.

End CheckpointStore.

(** ** The coordinator on a tree that holds the temp file

    [collect_file_info] above reads sizes and times from a tree that the
    run does not change.  The source rewrites [temp_file] inside the loop
    (lines 100-103), and reads the size and the time of a path when its
    result is merged (lines 93-94); when the temp file is among the
    scanned files, what is read depends on the saves made so far.
    [collect_live] keeps the temp file in the tree.  [results] gives what
    each future returns, [json_loads] is [json.load] on the bytes of the
    temp file, [denied] the refusals of the operating system and [now]
    the time stamp of a save. *)

Section LiveCoordinator.

Variable json_dumps : file_info_dict → list Byte.byte.
Variable json_loads : list Byte.byte → result file_info_dict.
Variable denied : filesystem → syscall → option exn.
Variable results : string → option string.
Variable now : Z.

Record live_state : Type := LiveState {
  live_fs : filesystem;
  live_working : file_info_dict
}.

(** Lines 70-73. *)
Definition live_load (fs : filesystem) (temp_file : string)
    : result file_info_dict :=
  if path_exists fs temp_file then
    match open_rb fs temp_file with
    | Raise e => Raise e
    | Ok data => json_loads data
    end
  else Ok [].

(** Lines 102-103 and 106-107. *)
Definition live_save (temp_file : string) (st : live_state)
    : result live_state :=
  match attempt denied (SysWrite temp_file)
          (write_effect json_dumps temp_file (live_working st) now)
          (live_fs st) with
  | Raise e => Raise e
  | Ok fs' => Ok (LiveState fs' (live_working st))
  end.

(** One iteration of the loop at lines 87-103. *)
Definition live_step (save_interval : Z) (temp_file : string)
    (st : live_state) (file_path : string) : result live_state :=
  match merge_result (live_fs st) file_path (results file_path)
          (live_working st) with
  | Raise e => Raise e
  | Ok d =>
      if save_interval =? 0 then Raise ZeroDivisionError
      else if Z.of_nat (length d) mod save_interval =? 0
           then live_save temp_file (LiveState (live_fs st) d)
           else Ok (LiveState (live_fs st) d)
  end.

Fixpoint live_loop (save_interval : Z) (temp_file : string)
    (st : live_state) (completed : list string) : result live_state :=
  match completed with
  | [] => Ok st
  | file_path :: completed' =>
      match live_step save_interval temp_file st file_path with
      | Raise e => Raise e
      | Ok st' => live_loop save_interval temp_file st' completed'
      end
  end.

(** Lines 66-109; the result holds the final tree and the returned
    mapping. *)
Definition collect_live (save_interval : Z) (ignore_list : list string)
    (os_walk : string → list (string * list string)) (fs : filesystem)
    (temp_file : string) (directories : list string)
    (as_completed : list string → list string) : result live_state :=
  match live_load fs temp_file with
  | Raise e => Raise e
  | Ok existing =>
      let file_paths := scan ignore_list os_walk directories in
      let futures := submitted existing file_paths in
      match live_loop save_interval temp_file (LiveState fs existing)
              (as_completed futures) with
      | Raise e => Raise e
      | Ok st => live_save temp_file st
      end
  end.


(** The record merged for a path when its size and time are those of
    the tree at the start of the run. *)
Definition live_record (fs : filesystem) (file_path : string)
    : option FileInfo.t :=
  match results file_path with
  | Some digest =>
      if truthy (Some digest) then
        match fs !! file_path with
        | Some (RegularFile data _ mtime) =>
            Some (FileInfo.Build (basename file_path) digest
                    (Z.of_nat (length data)) mtime)
        | Some Directory =>
            Some (FileInfo.Build (basename file_path) digest 4096 0)
        | None => None
        end
      else None
  | None => None
  end.

End LiveCoordinator.

(** [d[p] = r] for the path [p] when a record [r] is given for it. *)
Definition set_record {V} (record : string → option V) (d : pydict V)
    (p : string) : pydict V :=
  match record p with
  | Some r => dict_set p r d
  | None => d
  end.

(** The tree during a run: as at the start, except for the temp file. *)
Definition only_temp_rewritten (temp_file : string) (fs fs' : filesystem)
    : Prop :=
  (∀ p, p ≠ temp_file → fs' !! p = fs !! p)
  ∧ fs' !! temp_file ≠ Some Directory.

(** ** Resolution engine (lines 163-252) *)

(** A duplicate pair [(dup[0], dup[1])]. *)
Abbreviation dup_pair := (string * string)%type.

Definition group_step (grouped_duplicates : pydict (list dup_pair))
    (dup : dup_pair) : pydict (list dup_pair) :=
  let dir_path := dirname dup.1 in
  let grouped :=
    if dict_mem grouped_duplicates dir_path then grouped_duplicates
    else dict_set dir_path [] grouped_duplicates in
  dict_set dir_path (default [] (dict_get grouped dir_path) ++ [dup]) grouped.

Definition group_duplicates_by_directory (duplicates : list dup_pair)
    : pydict (list dup_pair) :=
  foldl group_step [] duplicates.

Fixpoint for_each {A} (body : A → io unit) (l : list A) : io unit :=
  match l with
  | [] => mret ()
  | x :: l' => body x;; for_each body l'
  end.

(** [input(prompt).strip().lower()] *)
Definition input_action (prompt : string) : io string :=
  line ← input prompt; mret (lower (strip line)).

(** [try: os.remove(p); print; logging.info] with its [except] clause;
    [what] is the wording of the error message. *)
Definition try_remove (what : string) (p : string) : io unit :=
  try_except
    (os_remove p;;
     print ("Deleted " +:+ p);;
     logging INFO ("Deleted " +:+ p))
    (λ e,
       print (what +:+ p +:+ ": " +:+ exn_str e);;
       logging ERROR (what +:+ p +:+ ": " +:+ exn_str e)).

Definition try_move (what : string) (p target_directory : string) : io unit :=
  try_except
    (shutil_move p target_directory;;
     print ("Moved " +:+ p +:+ " to " +:+ target_directory);;
     logging INFO ("Moved " +:+ p +:+ " to " +:+ target_directory))
    (λ e,
       print (what +:+ p +:+ ": " +:+ exn_str e);;
       logging ERROR (what +:+ p +:+ ": " +:+ exn_str e)).

(** Lines 193-195, 226-228 and 237-239. *)
Definition ask_target_directory : io string :=
  line ← input "Enter target directory for moving: ";
  let target_directory := strip line in
  present ← os_path_exists target_directory;
  (if present : bool then mret () else os_makedirs target_directory);;
  mret target_directory.

(** The body of the loop at lines 205-249, with the chain of conditions
    in the order and with the tests the source has. *)
Definition handle_pair (dup : dup_pair) : io unit :=
  print (newline +:+ "Duplicate found:" +:+ newline +:+ "1. " +:+ dup.1
           +:+ newline +:+ "2. " +:+ dup.2);;
  individual_action ← input_action
    "Choose action: [k]eep both, [d]elete first, [D]elete second, [m]ove first, [M]ove second: ";
  if bool_decide (individual_action = "d") then
    try_remove "Error deleting " dup.1
  else if bool_decide (individual_action = "d") then
    try_remove "Error deleting " dup.2
  else if bool_decide (individual_action = "m") then
    target_directory ← ask_target_directory;
    try_move "Error moving " dup.1 target_directory
  else if bool_decide (individual_action = "m") then
    target_directory ← ask_target_directory;
    try_move "Error moving " dup.2 target_directory
  else
    print "Keeping both files.";;
    logging INFO ("Keeping both files: " +:+ dup.1 +:+ " and " +:+ dup.2).

(** The body of the loop at lines 175-252 for one directory. *)
Definition handle_group (group : string * list dup_pair) : io unit :=
  let '(dir_path, duplicates) := group in
  print (newline +:+ "Directory: " +:+ dir_path);;
  action ← input_action
    "Choose action for this directory: [s]kip, [d]elete all, [m]ove all, [i]ndividual: ";
  if bool_decide (action = "s") then
    print ("Skipping directory: " +:+ dir_path);;
    logging INFO ("Skipping directory: " +:+ dir_path)
  else if bool_decide (action = "d") then
    for_each (λ dup : dup_pair, try_remove "Error deleting file " dup.1)
      duplicates
  else if bool_decide (action = "m") then
    target_directory ← ask_target_directory;
    for_each
      (λ dup : dup_pair, try_move "Error moving file " dup.1 target_directory)
      duplicates
  else if bool_decide (action = "i") then
    for_each handle_pair duplicates
  else
    print "Invalid action. Skipping directory.";;
    logging INFO ("Invalid action. Skipping directory: " +:+ dir_path).

Definition handle_duplicates (grouped_duplicates : pydict (list dup_pair))
    : io unit :=
  for_each handle_group grouped_duplicates.

(** What a run changed: the file system and the mutating system calls. *)
Definition no_mutation (before after : world) : Prop :=
  w_fs after = w_fs before ∧ w_syscalls after = w_syscalls before.

(** The claim about saving to a directory, as a predicate: the call
    returns, the report is in the default file inside the directory, and
    the log holds a warning. *)
Definition saved_with_warning (json_dumps : file_info_dict → list Byte.byte)
    (d : file_info_dict) (output_file : string) (w : world) : Prop :=
  isdir (w_fs w) output_file = true →
  let r := save_file_info json_dumps d output_file w in
  r.1 = inr ()
  ∧ (∃ readable mtime,
       w_fs r.2 !! path_join output_file default_report
       = Some (RegularFile (json_dumps d) readable mtime))
  ∧ ∃ text, Log WARNING text ∈ w_log r.2.

(** ** Files of length zero *)



(** ** Sample data

    A small tree and the mappings used to instantiate the statements
    below.  The digest and the serializer stand in for the xxhash and json
    packages. *)

Definition sample_digest (data : list Byte.byte) : string :=
  string_of_list_byte data.

(** An operating system that grants every open for writing. *)
(** An operating system that refuses nothing. *)
Definition grants_all (fs : filesystem) (call : syscall) : option exn := None.

Definition sample_json (d : file_info_dict) : list Byte.byte :=
  list_byte_of_string (String.concat "," (keys d)).

Definition sample_fs : filesystem :=
  <["x/a" := RegularFile [Byte.x61] true 5]>
  (<["x/b" := RegularFile [Byte.x61] true 6]>
  (<["y/c" := RegularFile [Byte.x61] true 7]>
  (<["x/d" := RegularFile [Byte.x64] true 8]>
  (<["x/e" := RegularFile [] true 9]>
  (<["x/u" := RegularFile [Byte.x75] false 10]>
  (<["out" := Directory]> ∅)))))).

(** The same tree with a directory in the place of the default report. *)
Definition blocked_fs : filesystem :=
  <["out/file_info_report.json" := Directory]> sample_fs.

Definition sample_record (file_name : string) (data : list Byte.byte)
    (mtime : Z) : FileInfo.t :=
  FileInfo.Build file_name (sample_digest data) (Z.of_nat (length data)) mtime.

Definition sample_dict : file_info_dict :=
  [("x/a", sample_record "a" [Byte.x61] 5);
   ("x/b", sample_record "b" [Byte.x61] 6);
   ("y/c", sample_record "c" [Byte.x61] 7);
   ("x/d", sample_record "d" [Byte.x64] 8)].

(** A report listing a file that is gone, a file whose content differs
    and a file that cannot be read. *)
Definition stale_dict : file_info_dict :=
  [("x/a", sample_record "a" [Byte.x61] 5);
   ("x/gone", sample_record "gone" [Byte.x67] 3);
   ("x/d", sample_record "d" [Byte.x78] 4);
   ("x/u", sample_record "u" [Byte.x75] 10)].

(** A temp file left by an interrupted run that had recorded one file. *)
Definition resumed_temp : option file_info_dict :=
  Some [("x/a", sample_record "a" [Byte.x61] 5)].

(** What [os.walk] yields on the sample tree, and the configuration. *)
Definition sample_walk (directory : string) : list (string * list string) :=
  if decide (directory = "x") then [("x", ["a"; "b"; "d"; "e"; "u"; ".git"])]
  else if decide (directory = "y") then [("y", ["c"])]
  else [].

Definition sample_ignore : list string := ["."].

Definition sample_dirs : list string := ["x"; "y"].

Definition sample_paths : list string :=
  ["x/a"; "x/b"; "x/d"; "x/e"; "x/u"; "y/c"].

Definition sample_world (fs : filesystem) (lines : list string) : world :=
  World fs lines [] [] [] 100 grants_all.








(** ** Vocabulary of the further properties *)

(** The hashes stored in a mapping, in iteration order and as a set. *)
Definition stored_hashes (d : file_info_dict) : list string :=
  FileInfo.hash <$> d.*2.

Definition distinct_hashes (d : file_info_dict) : gset string :=
  list_to_set (stored_hashes d).

(** A warning record, as counted in the report of a verification. *)
Definition is_warning (record : LogRecord) : bool :=
  match levelname record with
  | WARNING => true
  | _ => false
  end.

(** A system call that the engine may issue for a pair: on its first
    member, or the creation of a target directory. *)
Definition on_first_member (dup : dup_pair) (c : syscall) : Prop :=
  c = SysRemove dup.1 ∨ ∃ t, c = SysMakedirs t ∨ c = SysMove dup.1 t.

(** [m] only appends system calls, each satisfying [Q], to the trace. *)
Definition appends_only {A} (m : io A) (Q : syscall → Prop) : Prop :=
  ∀ w, ∃ new, w_syscalls (m w).2 = w_syscalls w ++ new ∧ ∀ c, c ∈ new → Q c.

(** * Properties *)

(** ** Dictionaries *)

Lemma dict_get_elem {V} (d : pydict V) k v :
  dict_wf d → (k, v) ∈ d → dict_get d k = Some v.
Proof.
  unfold dict_wf, keys. induction d as [|[k' v'] d IH]; simpl; intros Hnd Hin.
  - by apply elem_of_nil in Hin.
  - apply NoDup_cons in Hnd as [Hk Hnd].
    apply elem_of_cons in Hin as [Heq|Hin].
    + injection Heq as -> ->. by rewrite decide_True.
    + rewrite decide_False; [by apply IH|].
      intros ->. apply Hk. apply list_elem_of_fmap. by exists (k, v).
Qed.


Lemma dict_get_set {V} (d : pydict V) k v k' :
  dict_get (dict_set k v d) k' = if decide (k = k') then Some v else dict_get d k'.
Proof.
  induction d as [|[k0 v0] d IH]; simpl.
  - done.
  - destruct (decide (k0 = k)) as [->|Hne]; simpl.
    + by destruct (decide (k = k')).
    + rewrite IH. destruct (decide (k0 = k')) as [->|]; [|done].
      by rewrite decide_False by congruence.
Qed.

Lemma dict_get_None {V} (d : pydict V) k : dict_get d k = None ↔ k ∉ keys d.
Proof.
  unfold keys. induction d as [|[k0 v0] d IH]; simpl.
  - split; [intros _; apply not_elem_of_nil|done].
  - rewrite not_elem_of_cons. destruct (decide (k0 = k)) as [->|Hne].
    + split; [done|]. by intros [? _].
    + rewrite IH. naive_solver.
Qed.

Lemma dict_set_fresh {V} (d : pydict V) k v :
  k ∉ keys d → dict_set k v d = d ++ [(k, v)].
Proof.
  unfold keys. induction d as [|[k0 v0] d IH]; simpl; [done|].
  rewrite not_elem_of_cons. intros [Hne Hk].
  rewrite decide_False by done. by rewrite IH.
Qed.

Lemma keys_dict_set {V} (d : pydict V) k v k' :
  k' ∈ keys (dict_set k v d) ↔ k' = k ∨ k' ∈ keys d.
Proof.
  unfold keys. induction d as [|[k0 v0] d IH]; simpl.
  - rewrite list_elem_of_singleton. set_solver.
  - destruct (decide (k0 = k)) as [->|Hne]; simpl.
    + set_solver.
    + rewrite !elem_of_cons, IH. naive_solver.
Qed.

Lemma dict_set_wf {V} (d : pydict V) k v : dict_wf d → dict_wf (dict_set k v d).
Proof.
  unfold dict_wf, keys. induction d as [|[k0 v0] d IH]; simpl; intros Hnd.
  - apply NoDup_singleton.
  - apply NoDup_cons in Hnd as [Hk0 Hnd].
    destruct (decide (k0 = k)) as [->|Hne]; simpl.
    + by apply NoDup_cons.
    + apply NoDup_cons. split; [|by apply IH].
      intros Hin. apply (keys_dict_set d k v k0) in Hin as [?|?]; done.
Qed.

(** ** Duplicate detector *)

Lemma find_duplicates_loop_acc items hashes acc :
  find_duplicates_loop items hashes acc
  = acc ++ find_duplicates_loop items hashes [].
Proof.
  revert hashes acc. induction items as [|[p r] items IH]; intros hashes acc; simpl.
  - by rewrite app_nil_r.
  - destruct (hashes !! FileInfo.hash r) as [q|].
    + rewrite (IH hashes (acc ++ _)), (IH hashes [_]). by rewrite <- app_assoc.
    + apply IH.
Qed.

Lemma paths_with_hash_cons h p r items :
  paths_with_hash h ((p, r) :: items)
  = if decide (FileInfo.hash r = h) then p :: paths_with_hash h items
    else paths_with_hash h items.
Proof.
  unfold paths_with_hash. rewrite filter_cons. simpl.
  by destruct (decide (FileInfo.hash r = h)).
Qed.

Lemma find_duplicates_loop_filter (hof : string → option string) h items hashes :
  (∀ p r, (p, r) ∈ items → hof p = Some (FileInfo.hash r)) →
  filter (λ pr, hof pr.1 = Some h) (find_duplicates_loop items hashes [])
  = match hashes !! h with
    | Some first_seen => (λ p, (p, first_seen)) <$> paths_with_hash h items
    | None =>
        match paths_with_hash h items with
        | [] => []
        | first_seen :: later => (λ p, (p, first_seen)) <$> later
        end
    end.
Proof.
  revert hashes. induction items as [|[p r] items IH]; intros hashes Hof.
  - simpl. by destruct (hashes !! h).
  - assert (Hp : hof p = Some (FileInfo.hash r)) by (apply Hof; left).
    assert (Hof' : ∀ p r, (p, r) ∈ items → hof p = Some (FileInfo.hash r))
      by (intros; apply Hof; by right).
    rewrite paths_with_hash_cons. simpl.
    destruct (hashes !! FileInfo.hash r) as [q|] eqn:Hq.
    + rewrite find_duplicates_loop_acc, filter_app, IH by done.
      rewrite filter_cons, filter_nil. simpl.
      rewrite Hp.
      destruct (decide (FileInfo.hash r = h)) as [Heq|Hne].
      * rewrite decide_True by congruence. rewrite <- Heq, Hq. done.
      * rewrite decide_False by congruence. done.
    + rewrite IH by done.
      destruct (decide (FileInfo.hash r = h)) as [Heq|Hne].
      * rewrite <- Heq, Hq. by rewrite lookup_insert_eq.
      * by rewrite lookup_insert_ne.
Qed.

Lemma paths_with_hash_app h a b :
  paths_with_hash h (a ++ b) = paths_with_hash h a ++ paths_with_hash h b.
Proof. unfold paths_with_hash. by rewrite filter_app, fmap_app. Qed.

Lemma paths_with_hash_elem h d p :
  p ∈ paths_with_hash h d ↔ ∃ r, (p, r) ∈ d ∧ FileInfo.hash r = h.
Proof.
  unfold paths_with_hash. rewrite list_elem_of_fmap. split.
  - intros [[p' r] [-> Hin]]. apply list_elem_of_filter in Hin as [Hh Hin].
    by exists r.
  - intros [r [Hin Hh]]. exists (p, r). split; [done|].
    by apply list_elem_of_filter.
Qed.

Lemma paths_with_hash_keys h d p : p ∈ paths_with_hash h d → p ∈ keys d.
Proof.
  intros [r [Hin _]]%paths_with_hash_elem.
  unfold keys. apply list_elem_of_fmap. by exists (p, r).
Qed.

Lemma paths_with_hash_NoDup h d : dict_wf d → NoDup (paths_with_hash h d).
Proof.
  unfold dict_wf, keys, paths_with_hash.
  induction d as [|[p r] d IH]; simpl; intros Hnd; [constructor|].
  apply NoDup_cons in Hnd as [Hp Hnd]. rewrite filter_cons. simpl.
  destruct (decide (FileInfo.hash r = h)); [|by apply IH].
  simpl. apply NoDup_cons. split; [|by apply IH].
  intros Hin. apply Hp. by apply (paths_with_hash_keys h).
Qed.

Lemma first_with_hash_app h a b :
  first_with_hash h (a ++ b)
  = match first_with_hash h a with
    | Some q => Some q
    | None => first_with_hash h b
    end.
Proof.
  unfold first_with_hash. rewrite paths_with_hash_app.
  by destruct (paths_with_hash h a).
Qed.

Lemma first_with_hash_elem h d q :
  first_with_hash h d = Some q → q ∈ paths_with_hash h d.
Proof.
  unfold first_with_hash. destruct (paths_with_hash h d); [done|].
  intros [= ->]. by left.
Qed.

Lemma find_duplicates_loop_elem pre items hashes p q :
  dict_wf (pre ++ items) →
  (∀ h, hashes !! h = first_with_hash h pre) →
  (p, q) ∈ find_duplicates_loop items hashes [] →
  ∃ r, (p, r) ∈ items
       ∧ first_with_hash (FileInfo.hash r) (pre ++ items) = Some q ∧ q ≠ p.
Proof.
  revert pre hashes.
  induction items as [|[p0 r0] items IH]; intros pre hashes Hwf Hinv; simpl.
  - by intros ?%elem_of_nil.
  - assert (Hwf' : dict_wf ((pre ++ [(p0, r0)]) ++ items))
      by (by rewrite <- app_assoc).
    assert (Hstep : (p, q) ∈ find_duplicates_loop items
              (match hashes !! FileInfo.hash r0 with
               | Some _ => hashes
               | None => <[FileInfo.hash r0 := p0]> hashes
               end) [] →
            ∃ r, (p, r) ∈ (p0, r0) :: items
              ∧ first_with_hash (FileInfo.hash r) (pre ++ (p0, r0) :: items)
                = Some q ∧ q ≠ p).
    { intros Hin. apply (IH (pre ++ [(p0, r0)])) in Hin; [|done|].
      - destruct Hin as (r & Hr & Hfirst & Hne). exists r.
        split; [by right|]. split; [|done].
        by rewrite <- app_assoc in Hfirst.
      - intros h. rewrite first_with_hash_app.
        unfold first_with_hash at 2. rewrite paths_with_hash_cons.
        destruct (hashes !! FileInfo.hash r0) as [q0|] eqn:Hq0.
        + rewrite <- Hinv. destruct (hashes !! h) eqn:Hh; [done|].
          destruct (decide (FileInfo.hash r0 = h)); [congruence|done].
        + destruct (decide (FileInfo.hash r0 = h)) as [<-|Hne].
          * by rewrite lookup_insert_eq, <- Hinv, Hq0.
          * rewrite lookup_insert_ne by done. rewrite <- Hinv.
            by destruct (hashes !! h). }
    destruct (hashes !! FileInfo.hash r0) as [q0|] eqn:Hq0; [|done].
    rewrite find_duplicates_loop_acc. intros Hin.
    apply elem_of_app in Hin as [Hin|Hin]; [|by apply Hstep].
    apply list_elem_of_singleton in Hin as [= -> ->].
    exists r0. split; [by left|].
    rewrite Hinv in Hq0. split.
    + by rewrite first_with_hash_app, Hq0.
    + intros ->. unfold dict_wf, keys in Hwf. rewrite fmap_app in Hwf.
      apply NoDup_app in Hwf as (_ & Hdisj & _).
      apply (Hdisj p0); [|by left].
      by apply (paths_with_hash_keys (FileInfo.hash r0)), first_with_hash_elem.
Qed.

Lemma find_duplicates_elem d p q :
  dict_wf d → (p, q) ∈ find_duplicates_from_info d →
  ∃ r, (p, r) ∈ d ∧ first_with_hash (FileInfo.hash r) d = Some q ∧ q ≠ p.
Proof.
  intros Hwf Hin.
  apply (find_duplicates_loop_elem [] d ∅ p q); [done| |done].
  intros h. by rewrite lookup_empty.
Qed.

Lemma filter_all {A} (P : A → Prop) `{∀ x, Decision (P x)} (l : list A) :
  (∀ x, x ∈ l → P x) → filter P l = l.
Proof.
  induction l as [|x l IH]; intros Hall; [done|].
  rewrite filter_cons, decide_True by (apply Hall; by left).
  f_equal. apply IH. intros y Hy. apply Hall. by right.
Qed.

(** C2. When exactly [N >= 2] paths of the mapping carry the hash [h]
    ([first_seen] followed by [later], in iteration order), the detector
    returns for them exactly the [N - 1] pairs [(p, first_seen)], one per
    later path [p] and in that order; [first_seen] is the first path
    carrying [h]; no second member of a returned pair is the first member
    of another, so later duplicates are never paired with each other; and
    when [h] is the only hash that several paths share, these pairs are the
    whole result. *)
Theorem find_duplicates_fan (d : file_info_dict) (h first_seen : string)
    (later : list string) :
  dict_wf d →
  paths_with_hash h d = first_seen :: later →
  let pairs := find_duplicates_from_info d in
  let pairs_h := filter (λ pr, pair_hash d pr = Some h) pairs in
  pairs_h = (λ p, (p, first_seen)) <$> later
  ∧ length pairs_h = (length (first_seen :: later) - 1)%nat
  ∧ first_with_hash h d = Some first_seen
  ∧ (∀ p q, (p, q) ∈ pairs → q ∉ pairs.*1)
  ∧ ((∀ h', h' ≠ h → (length (paths_with_hash h' d) ≤ 1)%nat) →
     pairs = (λ p, (p, first_seen)) <$> later).
Proof.
  intros Hwf Hpaths pairs pairs_h.
  assert (Hfilter : pairs_h = (λ p, (p, first_seen)) <$> later).
  { unfold pairs_h, pairs, find_duplicates_from_info, pair_hash.
    rewrite (find_duplicates_loop_filter (λ p, FileInfo.hash <$> dict_get d p)).
    - by rewrite lookup_empty, Hpaths.
    - intros p r Hin. by rewrite (dict_get_elem d p r). }
  assert (Hsecond : ∀ p q, (p, q) ∈ pairs → q ∉ pairs.*1).
  { intros p q Hin Hq.
    apply list_elem_of_fmap in Hq as [[q' q2] [Heq Hin2]]. simpl in Heq. subst q'.
    apply find_duplicates_elem in Hin as (r & Hr & Hfirst & Hne); [|done].
    apply find_duplicates_elem in Hin2 as (r2 & Hr2 & Hfirst2 & Hne2); [|done].
    pose proof Hfirst as Hq.
    apply first_with_hash_elem, paths_with_hash_elem in Hq
      as (rq & Hrq & Hhash).
    assert (rq = r2).
    { apply (dict_get_elem d q) in Hrq, Hr2; try done. congruence. }
    subst rq. rewrite Hhash in Hfirst2. congruence. }
  repeat split; [done| |by unfold first_with_hash; rewrite Hpaths|done|].
  - rewrite Hfilter, length_fmap. simpl. lia.
  - intros Honly. rewrite <- Hfilter. symmetry. apply filter_all.
    intros [p q] Hin.
    apply find_duplicates_elem in Hin as (r & Hr & Hfirst & Hne); [|done].
    unfold pair_hash. simpl. rewrite (dict_get_elem d p r) by done. simpl.
    f_equal. destruct (decide (FileInfo.hash r = h)) as [|Hh]; [done|].
    specialize (Honly _ Hh).
    assert (Hp : p ∈ paths_with_hash (FileInfo.hash r) d)
      by (apply paths_with_hash_elem; by exists r).
    apply first_with_hash_elem in Hfirst.
    pose proof (paths_with_hash_NoDup (FileInfo.hash r) d Hwf) as Hnd.
    destruct (paths_with_hash (FileInfo.hash r) d) as [|x [|y l]];
      simpl in Honly; [by apply elem_of_nil in Hp| |lia].
    apply list_elem_of_singleton in Hp, Hfirst. congruence.
Qed.

(** ** Fingerprint coordinator *)

Section Collect.
Context (xxh : list Byte.byte → string).

Lemma file_hash_Some fs p digest :
  (file_hash xxh fs p).1 = Some digest →
  ∃ data mtime, fs !! p = Some (RegularFile data true mtime)
                ∧ data ≠ [] ∧ digest = xxh data.
Proof.
  unfold file_hash, file_hash_try, open_rb.
  destruct (fs !! p) as [[data [] mtime|]|]; simpl; try done.
  destruct data as [|b data]; simpl; [done|].
  intros [= <-]. by exists (b :: data), mtime.
Qed.

Lemma merge_result_eq fs p d :
  merge_result fs p (file_hash xxh fs p).1 d = Ok (merge_one xxh fs d p).
Proof.
  unfold merge_result, merge_one, merged_record.
  destruct ((file_hash xxh fs p).1) as [digest|] eqn:Hh.
  - destruct (file_hash_Some _ _ _ Hh) as (data & mtime & Hfs & _ & _).
    unfold getsize, getmtime. rewrite Hfs.
    by destruct (truthy (Some digest)).
  - by destruct (fs !! p) as [[]|].
Qed.

Lemma collect_step_eq K fs st p :
  collect_step xxh K fs st p
  = save_periodically K (CollectState (merge_one xxh fs (working st) p)
                           (temp_content st)).
Proof. unfold collect_step. by rewrite merge_result_eq. Qed.

Lemma save_periodically_Ok K st :
  K ≠ 0 →
  ∃ st', save_periodically K st = Ok st'
         ∧ working st' = working st
         ∧ (Z.of_nat (length (working st)) mod K = 0 →
            temp_content st' = Some (working st'))
         ∧ (Z.of_nat (length (working st)) mod K ≠ 0 →
            temp_content st' = temp_content st).
Proof.
  intros HK. unfold save_periodically.
  destruct (Z.eqb_spec K 0) as [|_]; [done|].
  destruct (Z.eqb_spec (Z.of_nat (length (working st)) mod K) 0) as [Hm|Hm].
  - eexists. split; [done|]. simpl. by repeat split.
  - eexists. split; [done|]. by repeat split.
Qed.

Lemma collect_loop_Ok K fs st completed :
  K ≠ 0 →
  ∃ st', collect_loop xxh K fs st completed = Ok st'
         ∧ working st' = merge_all xxh fs (working st) completed.
Proof.
  intros HK. revert st.
  induction completed as [|p completed IH]; intros st; simpl.
  - by exists st.
  - rewrite collect_step_eq.
    destruct (save_periodically_Ok K
      (CollectState (merge_one xxh fs (working st) p) (temp_content st)) HK)
      as (st1 & -> & Hw & _).
    destruct (IH st1) as (st' & -> & Hw').
    exists st'. split; [done|]. by rewrite Hw', Hw.
Qed.



Lemma merge_all_snoc fs d completed p :
  merge_all xxh fs d (completed ++ [p])
  = merge_one xxh fs (merge_all xxh fs d completed) p.
Proof. unfold merge_all. by rewrite foldl_snoc. Qed.

Lemma dict_get_merge_all fs d completed k :
  dict_get (merge_all xxh fs d completed) k
  = match merged_record xxh fs k with
    | Some r => if decide (k ∈ completed) then Some r else dict_get d k
    | None => dict_get d k
    end.
Proof.
  induction completed as [|p completed IH] using rev_ind.
  - simpl. by destruct (merged_record xxh fs k).
  - rewrite merge_all_snoc. unfold merge_one at 1.
    destruct (decide (p = k)) as [->|Hne].
    + destruct (merged_record xxh fs k) as [r|] eqn:Hr.
      * rewrite dict_get_set, decide_True by done.
        rewrite decide_True; [done|]. apply elem_of_app. right. by left.
      * done.
    + assert (Hiff : k ∈ completed ++ [p] ↔ k ∈ completed).
      { rewrite elem_of_app, list_elem_of_singleton. naive_solver. }
      destruct (merged_record xxh fs p) as [rp|].
      * rewrite dict_get_set, decide_False by done. rewrite IH.
        destruct (merged_record xxh fs k); [|done].
        destruct (decide (k ∈ completed)), (decide (k ∈ completed ++ [p]));
          naive_solver.
      * rewrite IH. destruct (merged_record xxh fs k); [|done].
        destruct (decide (k ∈ completed)), (decide (k ∈ completed ++ [p]));
          naive_solver.
Qed.

Lemma merge_all_perm fs d o1 o2 :
  o1 ≡ₚ o2 → dict_eq (merge_all xxh fs d o1) (merge_all xxh fs d o2).
Proof.
  intros Hperm k. rewrite !dict_get_merge_all.
  destruct (merged_record xxh fs k); [|done].
  destruct (decide (k ∈ o1)) as [H1|H1], (decide (k ∈ o2)) as [H2|H2];
    try done.
  - by rewrite Hperm in H1.
  - by rewrite <- Hperm in H2.
Qed.









Lemma collect_scanned_Ok K fs temp paths as_completed :
  K ≠ 0 →
  ∃ st, collect_scanned xxh K fs temp paths as_completed = Ok st
        ∧ working st
          = merge_all xxh fs (load_progress temp)
              (as_completed (submitted (load_progress temp) paths))
        ∧ temp_content st = Some (working st).
Proof.
  intros HK. unfold collect_scanned.
  destruct (collect_loop_Ok K fs (CollectState (load_progress temp) temp)
              (as_completed (submitted (load_progress temp) paths)) HK)
    as (st & -> & Hw).
  exists (finish st). by repeat split.
Qed.

(** The configuration of the scan. *)
Context (ignore_list : list string).
Context (os_walk : string → list (string * list string)).



(** On a tree that the run does not change, for any two completion
    orders of the same submitted paths both runs return, and the returned
    mappings are equal as Python dictionaries: every path maps to the
    same record in both. *)
Lemma collect_order_independent K fs temp directories as_completed1
    as_completed2 :
  K ≠ 0 →
  completion_order as_completed1 → completion_order as_completed2 →
  ∃ st1 st2,
    collect_file_info xxh K ignore_list os_walk fs temp directories
      as_completed1 = Ok st1
    ∧ collect_file_info xxh K ignore_list os_walk fs temp directories
        as_completed2 = Ok st2
    ∧ dict_eq (working st1) (working st2).
Proof.
  intros HK H1 H2.
  destruct (collect_scanned_Ok K fs temp
              (scan ignore_list os_walk directories) as_completed1 HK)
    as (st1 & Hr1 & Hw1 & _).
  destruct (collect_scanned_Ok K fs temp
              (scan ignore_list os_walk directories) as_completed2 HK)
    as (st2 & Hr2 & Hw2 & _).
  exists st1, st2. repeat split; try done.
  rewrite Hw1, Hw2. apply merge_all_perm. by rewrite (H1 _), (H2 _).
Qed.

End Collect.



(** ** Fingerprint coordinator on a tree that holds the temp file *)

Section Live.

Context (json_dumps : file_info_dict → list Byte.byte).
Context (json_loads : list Byte.byte → result file_info_dict).
Context (denied : filesystem → syscall → option exn).
Context (results : string → option string).
Context (now : Z).

Lemma merge_result_live fs fs' p d :
  fs' !! p = fs !! p →
  (truthy (results p) = true → is_Some (fs !! p)) →
  merge_result fs' p (results p) d
  = Ok (set_record (live_record results fs) d p).
Proof.
  intros Hsame Hex. unfold merge_result, set_record, live_record.
  unfold getsize, getmtime. rewrite Hsame.
  destruct (results p) as [digest|] eqn:Hr; [|done].
  destruct (truthy (Some digest)) eqn:Ht; [|done].
  destruct (Hex eq_refl) as [n ->]. by destruct n.
Qed.

Lemma live_save_Ok temp_file fs st :
  (∀ fs', denied fs' (SysWrite temp_file) = None) →
  only_temp_rewritten temp_file fs (live_fs st) →
  ∃ st', live_save json_dumps denied now temp_file st = Ok st'
         ∧ only_temp_rewritten temp_file fs (live_fs st')
         ∧ live_working st' = live_working st.
Proof.
  intros Hgrant [Hoff Hnd]. unfold live_save, attempt, write_effect.
  rewrite Hgrant.
  destruct (live_fs st !! temp_file) as [[data readable mtime|]|] eqn:Hn;
    [| done |]; (eexists; split; [reflexivity|]; split; [|done]; split; simpl).
  - intros p Hp. rewrite lookup_insert_ne by done. by apply Hoff.
  - by rewrite lookup_insert_eq.
  - intros p Hp. rewrite lookup_insert_ne by done. by apply Hoff.
  - by rewrite lookup_insert_eq.
Qed.

Lemma live_step_Ok K temp_file fs st p :
  K ≠ 0 →
  (∀ fs', denied fs' (SysWrite temp_file) = None) →
  only_temp_rewritten temp_file fs (live_fs st) →
  p ≠ temp_file →
  (truthy (results p) = true → is_Some (fs !! p)) →
  ∃ st', live_step json_dumps denied results now K temp_file st p
           = Ok st'
         ∧ only_temp_rewritten temp_file fs (live_fs st')
         ∧ live_working st'
           = set_record (live_record results fs) (live_working st) p.
Proof.
  intros HK Hgrant Hinv Hp Hex. unfold live_step.
  rewrite (merge_result_live fs) by (done || by apply Hinv).
  apply Z.eqb_neq in HK. rewrite HK.
  destruct (Z.of_nat _ mod K =? 0).
  - by apply live_save_Ok.
  - by eexists.
Qed.

Lemma live_loop_Ok K temp_file fs completed : ∀ st,
  K ≠ 0 →
  (∀ fs', denied fs' (SysWrite temp_file) = None) →
  only_temp_rewritten temp_file fs (live_fs st) →
  (∀ p, p ∈ completed →
        p ≠ temp_file ∧ (truthy (results p) = true → is_Some (fs !! p))) →
  ∃ st', live_loop json_dumps denied results now K temp_file st
           completed = Ok st'
         ∧ only_temp_rewritten temp_file fs (live_fs st')
         ∧ live_working st'
           = foldl (set_record (live_record results fs)) (live_working st)
               completed.
Proof.
  induction completed as [|p completed IH]; intros st HK Hgrant Hinv Hall.
  - by exists st.
  - simpl.
    destruct (Hall p) as [Hp Hex]; [by left|].
    destruct (live_step_Ok K temp_file fs st p HK Hgrant Hinv Hp Hex)
      as (st1 & -> & Hinv1 & Hw1).
    destruct (IH st1 HK Hgrant Hinv1) as (st' & Hloop & Hinv' & Hw').
    { intros q Hq. apply Hall. by right. }
    exists st'. by rewrite Hloop, Hw', Hw1.
Qed.

Lemma live_load_not_directory fs temp_file existing :
  live_load json_loads fs temp_file = Ok existing →
  fs !! temp_file ≠ Some Directory.
Proof.
  unfold live_load, path_exists, open_rb. intros Hload Hd.
  rewrite Hd in Hload. by rewrite bool_decide_eq_true_2 in Hload.
Qed.

Lemma collect_live_Ok K ignore_list os_walk fs temp_file directories
    existing as_completed :
  K ≠ 0 →
  live_load json_loads fs temp_file = Ok existing →
  (∀ fs', denied fs' (SysWrite temp_file) = None) →
  (∀ p, p ∈ submitted existing (scan ignore_list os_walk directories) →
        p ≠ temp_file ∧ (truthy (results p) = true → is_Some (fs !! p))) →
  completion_order as_completed →
  ∃ st, collect_live json_dumps json_loads denied results now K
          ignore_list os_walk fs temp_file directories as_completed = Ok st
        ∧ live_working st
          = foldl (set_record (live_record results fs)) existing
              (as_completed
                 (submitted existing (scan ignore_list os_walk directories))).
Proof.
  intros HK Hload Hgrant Hall Horder. unfold collect_live. rewrite Hload.
  destruct (live_loop_Ok K temp_file fs
              (as_completed
                 (submitted existing (scan ignore_list os_walk directories)))
              (LiveState fs existing) HK Hgrant)
    as (st1 & -> & Hinv1 & Hw1).
  { split; [done|]. by eapply live_load_not_directory. }
  { intros p Hp. apply Hall. by rewrite <- (Horder _). }
  destruct (live_save_Ok temp_file fs st1 Hgrant Hinv1) as (st & -> & _ & Hw).
  exists st. split; [done|]. by rewrite Hw, Hw1.
Qed.


End Live.

Section LiveAgrees.

Context (xxh : list Byte.byte → string).
Context (json_dumps : file_info_dict → list Byte.byte).
Context (json_loads : list Byte.byte → result file_info_dict).
Context (denied : filesystem → syscall → option exn).
Context (now : Z).

Lemma live_record_file_hash fs p :
  live_record (λ q, (file_hash xxh fs q).1) fs p = merged_record xxh fs p.
Proof.
  unfold live_record, merged_record, file_hash, file_hash_try, open_rb.
  by destruct (fs !! p) as [[data [] mtime|]|].
Qed.

Lemma set_records_file_hash fs completed : ∀ d,
  foldl (set_record (live_record (λ q, (file_hash xxh fs q).1) fs)) d completed
  = merge_all xxh fs d completed.
Proof.
  unfold merge_all.
  induction completed as [|p completed IH]; intros d; [done|]. simpl.
  rewrite IH. unfold set_record, merge_one. by rewrite live_record_file_hash.
Qed.

Lemma file_hash_truthy_exists fs p :
  truthy (file_hash xxh fs p).1 = true → is_Some (fs !! p).
Proof.
  unfold file_hash, file_hash_try, open_rb.
  by destruct (fs !! p) as [[data [] mtime|]|].
Qed.

(** With the temp file not among the submitted paths, the run on the
    changing tree returns the mapping of [collect_file_info]. *)
Lemma collect_live_agrees K ignore_list os_walk fs temp_file directories
    existing as_completed :
  K ≠ 0 →
  live_load json_loads fs temp_file = Ok existing →
  temp_file ∉ submitted existing (scan ignore_list os_walk directories) →
  (∀ fs', denied fs' (SysWrite temp_file) = None) →
  completion_order as_completed →
  ∃ st st',
    collect_live json_dumps json_loads denied
      (λ q, (file_hash xxh fs q).1) now K ignore_list os_walk fs temp_file
      directories as_completed = Ok st
    ∧ collect_file_info xxh K ignore_list os_walk fs (Some existing)
        directories as_completed = Ok st'
    ∧ live_working st = working st'.
Proof.
  intros HK Hload Htemp Hgrant Horder.
  destruct (collect_live_Ok json_dumps json_loads denied
              (λ q, (file_hash xxh fs q).1) now K ignore_list os_walk fs
              temp_file directories existing as_completed HK Hload Hgrant)
    as (st & Hr & Hw); [|done|].
  { intros p Hp. split; [by intros ->|apply file_hash_truthy_exists]. }
  destruct (collect_scanned_Ok xxh K fs (Some existing)
              (scan ignore_list os_walk directories) as_completed HK)
    as (st' & Hr' & Hw' & _).
  exists st, st'. split; [done|]. split; [done|].
  by rewrite Hw, Hw', set_records_file_hash.
Qed.

End LiveAgrees.

(** ** Checkpoint verification *)

Section Verify.
Context (xxh : list Byte.byte → string).

Lemma verify_step_eq fs acc log item :
  verify_step xxh fs (acc, log) item
  = (if still_valid xxh fs item then dict_set item.1 item.2 acc else acc,
     log ++ verify_report xxh fs item).
Proof.
  destruct item as [p r]. unfold verify_step, verify_report, still_valid. simpl.
  destruct (path_exists fs p); simpl; [|done].
  destruct (file_hash xxh fs p) as [cur hl]. simpl.
  case_bool_decide; simpl; [by rewrite app_nil_r|done].
Qed.

Lemma verify_foldl fs pre d :
  dict_wf (pre ++ d) →
  ∀ log,
  foldl (verify_step xxh fs) (filter (λ i, still_valid xxh fs i = true) pre, log) d
  = (filter (λ i, still_valid xxh fs i = true) (pre ++ d),
     log ++ (d ≫= verify_report xxh fs)).
Proof.
  revert pre. induction d as [|[p r] d IH]; intros pre Hwf log.
  - simpl. by rewrite !app_nil_r.
  - cbn [foldl]. rewrite verify_step_eq. cbn [fst snd].
    assert (Hwf' : dict_wf ((pre ++ [(p, r)]) ++ d)) by (by rewrite <- app_assoc).
    assert (Hacc :
      (if still_valid xxh fs (p, r)
       then dict_set p r (filter (λ i, still_valid xxh fs i = true) pre)
       else filter (λ i, still_valid xxh fs i = true) pre)
      = filter (λ i, still_valid xxh fs i = true) (pre ++ [(p, r)])).
    { rewrite filter_app, filter_cons, filter_nil.
      destruct (still_valid xxh fs (p, r)) eqn:Hv.
      - rewrite decide_True by done. apply dict_set_fresh.
        unfold dict_wf, keys in Hwf. rewrite fmap_app in Hwf.
        apply NoDup_app in Hwf as (_ & Hdisj & _).
        intros Hin. apply (Hdisj p); [|by left].
        apply list_elem_of_fmap in Hin as [[p' r'] [-> Hin]].
        apply list_elem_of_filter in Hin as [_ Hin].
        apply list_elem_of_fmap. by exists (p', r').
      - rewrite decide_False by done. by rewrite app_nil_r. }
    rewrite Hacc, (IH _ Hwf'). f_equal.
    + by rewrite <- app_assoc.
    + by rewrite <- app_assoc.
Qed.

Lemma verify_file_info_eq fs d :
  dict_wf d →
  verify_file_info xxh fs d
  = (filter (λ i, still_valid xxh fs i = true) d, d ≫= verify_report xxh fs).
Proof. intros Hwf. unfold verify_file_info. by rewrite (verify_foldl fs [] d). Qed.

Lemma file_hash_log_level fs p rec :
  rec ∈ (file_hash xxh fs p).2 → levelname rec = ERROR.
Proof.
  unfold file_hash. destruct (file_hash_try xxh fs p); simpl.
  - by intros ?%elem_of_nil.
  - by intros ->%list_elem_of_singleton.
Qed.

Lemma hash_changed_inj p q : hash_changed p = hash_changed q → p = q.
Proof. unfold hash_changed. intros [= H]. by apply (inj _) in H. Qed.

Lemma not_found_inj p q : not_found p = not_found q → p = q.
Proof. unfold not_found. intros [= H]. by apply (inj _) in H. Qed.

Lemma hash_changed_not_found p q : hash_changed p ≠ not_found q.
Proof. unfold hash_changed, not_found. by intros [=]. Qed.

Lemma verify_report_hash_changed fs item q :
  hash_changed q ∈ verify_report xxh fs item
  ↔ q = item.1 ∧ path_exists fs q = true ∧ still_valid xxh fs item = false.
Proof.
  unfold verify_report. split.
  - destruct (path_exists fs item.1) eqn:He.
    + rewrite elem_of_app. intros [Hin|Hin].
      * by apply file_hash_log_level in Hin.
      * destruct (still_valid xxh fs item); [by apply elem_of_nil in Hin|].
        apply list_elem_of_singleton, hash_changed_inj in Hin. by subst.
    + intros Hin%list_elem_of_singleton. by apply hash_changed_not_found in Hin.
  - intros (-> & -> & ->). apply elem_of_app. right. by left.
Qed.

Lemma verify_report_not_found fs item q :
  not_found q ∈ verify_report xxh fs item
  ↔ q = item.1 ∧ path_exists fs q = false.
Proof.
  unfold verify_report. split.
  - destruct (path_exists fs item.1) eqn:He.
    + rewrite elem_of_app. intros [Hin|Hin].
      * by apply file_hash_log_level in Hin.
      * destruct (still_valid xxh fs item); [by apply elem_of_nil in Hin|].
        apply list_elem_of_singleton in Hin. symmetry in Hin.
        by apply hash_changed_not_found in Hin.
    + intros Hin%list_elem_of_singleton%not_found_inj. by subst.
  - intros (-> & ->). by left.
Qed.

(** The categories under which a record of a well-formed mapping is
    reported. *)
Lemma verify_categories fs d p r :
  dict_wf d → (p, r) ∈ d →
  let log := (verify_file_info xxh fs d).2 in
  (hash_changed p ∈ log
   ↔ path_exists fs p = true ∧ still_valid xxh fs (p, r) = false)
  ∧ (not_found p ∈ log ↔ path_exists fs p = false).
Proof.
  intros Hwf Hin. rewrite verify_file_info_eq by done. simpl. split.
  - rewrite list_elem_of_bind. split.
    + intros ([p' r'] & Hrep & Hin'). apply verify_report_hash_changed in Hrep
        as (Heq & He & Hv). simpl in Heq. subst p'.
      assert (r' = r) as ->; [|done].
      apply (dict_get_elem d p) in Hin, Hin'; try done. congruence.
    + intros [He Hv]. exists (p, r). split; [|done].
      by apply verify_report_hash_changed.
  - rewrite list_elem_of_bind. split.
    + by intros ([p' r'] & (_ & He)%verify_report_not_found & _).
    + intros He. exists (p, r). split; [|done].
      by apply verify_report_not_found.
Qed.

Lemma still_valid_spec fs p r :
  still_valid xxh fs (p, r) = true
  ↔ path_exists fs p = true
    ∧ (file_hash xxh fs p).1 = Some (FileInfo.hash r).
Proof.
  unfold still_valid. simpl.
  rewrite andb_true_iff, bool_decide_eq_true. done.
Qed.

Lemma verify_kept fs d p r :
  dict_wf d → (p, r) ∈ d →
  (p, r) ∈ (verify_file_info xxh fs d).1 ↔ still_valid xxh fs (p, r) = true.
Proof.
  intros Hwf Hin. rewrite verify_file_info_eq by done. simpl.
  rewrite list_elem_of_filter. naive_solver.
Qed.

Lemma verify_dropped fs d p r :
  dict_wf d → (p, r) ∈ d → still_valid xxh fs (p, r) = false →
  p ∉ keys (verify_file_info xxh fs d).1.
Proof.
  intros Hwf Hin Hv. rewrite verify_file_info_eq by done. simpl.
  intros Hk. apply list_elem_of_fmap in Hk as [[p' r'] [Heq Hin']].
  simpl in Heq. subst p'. apply list_elem_of_filter in Hin' as [Hv' Hin'].
  assert (r' = r) as ->; [|congruence].
  apply (dict_get_elem d p) in Hin, Hin'; try done. congruence.
Qed.

(** C5. On a mapping with unique keys, [verify_file_info] returns exactly
    the records whose file exists and whose recomputed fingerprint equals
    the stored hash, in their original order; a record whose file is
    missing is dropped and reported as "File not found", a record whose
    file exists with another fingerprint is dropped and reported as "File
    hash changed", and neither report is made in the other case or for a
    record that is kept. *)
Theorem verify_keeps_exactly fs d :
  dict_wf d →
  let valid := (verify_file_info xxh fs d).1 in
  let log := (verify_file_info xxh fs d).2 in
  valid = filter (λ i, still_valid xxh fs i = true) d
  ∧ ∀ p r, (p, r) ∈ d →
      ((p, r) ∈ valid
       ↔ path_exists fs p = true
         ∧ (file_hash xxh fs p).1 = Some (FileInfo.hash r))
      ∧ (path_exists fs p = false →
         (p ∉ keys valid) ∧ not_found p ∈ log ∧ (hash_changed p ∉ log))
      ∧ (path_exists fs p = true →
         (file_hash xxh fs p).1 ≠ Some (FileInfo.hash r) →
         (p ∉ keys valid) ∧ hash_changed p ∈ log ∧ (not_found p ∉ log))
      ∧ ((p, r) ∈ valid → (hash_changed p ∉ log) ∧ (not_found p ∉ log)).
Proof.
  intros Hwf valid log. split.
  { unfold valid. by rewrite verify_file_info_eq. }
  intros p r Hin.
  destruct (verify_categories fs d p r Hwf Hin) as [Hchanged Hmissing].
  fold log in Hchanged, Hmissing.
  pose proof (verify_kept fs d p r Hwf Hin) as Hkept. fold valid in Hkept.
  pose proof (verify_dropped fs d p r Hwf Hin) as Hdrop. fold valid in Hdrop.
  pose proof (still_valid_spec fs p r) as Hspec.
  split; [|split; [|split]].
  - by rewrite Hkept.
  - intros He.
    assert (Hv : still_valid xxh fs (p, r) = false).
    { destruct (still_valid xxh fs (p, r)); [|done].
      destruct Hspec as [Hs _]. destruct (Hs eq_refl). congruence. }
    split; [by apply Hdrop|]. split; [by apply Hmissing|].
    rewrite Hchanged. intros [? _]. congruence.
  - intros He Hh.
    assert (Hv : still_valid xxh fs (p, r) = false).
    { destruct (still_valid xxh fs (p, r)); [|done].
      destruct Hspec as [Hs _]. by destruct (Hs eq_refl). }
    split; [by apply Hdrop|]. split; [by apply Hchanged|].
    rewrite Hmissing. congruence.
  - intros Hv. apply Hkept in Hv. split.
    + rewrite Hchanged. intros [_ ?]. congruence.
    + rewrite Hmissing. apply Hspec in Hv as [? _]. congruence.
Qed.

(** C10. A listed file that exists but cannot be opened for reading has
    the fingerprint [None], which differs from every stored hash: its
    record is dropped, reported as "File hash changed" and not as "File
    not found". *)
Theorem unreadable_reported_as_changed fs d p r n e :
  dict_wf d → (p, r) ∈ d →
  fs !! p = Some n → open_rb fs p = Raise e →
  let valid := (verify_file_info xxh fs d).1 in
  let log := (verify_file_info xxh fs d).2 in
  (file_hash xxh fs p).1 = None
  ∧ (file_hash xxh fs p).1 ≠ Some (FileInfo.hash r)
  ∧ (p ∉ keys valid)
  ∧ hash_changed p ∈ log
  ∧ (not_found p ∉ log).
Proof.
  intros Hwf Hin Hfs Hopen valid log.
  assert (Hnone : (file_hash xxh fs p).1 = None).
  { unfold file_hash, file_hash_try. by rewrite Hopen. }
  assert (He : path_exists fs p = true).
  { unfold path_exists. rewrite Hfs. by apply bool_decide_eq_true. }
  assert (Hv : still_valid xxh fs (p, r) = false).
  { unfold still_valid. simpl. rewrite Hnone, He. done. }
  destruct (verify_categories fs d p r Hwf Hin) as [Hchanged Hmissing].
  repeat split.
  - done.
  - by rewrite Hnone.
  - by apply verify_dropped with r.
  - by apply Hchanged.
  - unfold log. rewrite Hmissing. congruence.
Qed.
End Verify.

(** ** Resolution engine *)

Ltac run_io :=
  unfold handle_group, handle_pair, input_action, ask_target_directory,
    try_remove, try_move, try_except, os_remove, os_makedirs, shutil_move,
    os_path_exists, os_path_isdir, do_syscall, input, print, logging,
    mbind, mret, io_mbind, io_mret, io_bind, io_ret in *;
  simpl in *.

Lemma skip_invalid_group dir_path duplicates w line rest :
  w_stdin w = line :: rest →
  lower (strip line) ∉ ["s"; "d"; "m"; "i"] →
  let r := handle_group (dir_path, duplicates) w in
  r.1 = inr ()
  ∧ no_mutation w r.2
  ∧ w_stdin r.2 = rest
  ∧ w_log r.2
    = w_log w ++ [Log INFO ("Invalid action. Skipping directory: " +:+ dir_path)].
Proof.
  intros Hin Hact. run_io. rewrite Hin. simpl.
  rewrite !not_elem_of_cons in Hact. destruct Hact as (Hs & Hd & Hm & Hi & _).
  rewrite !bool_decide_eq_false_2 by done. simpl. by repeat split.
Qed.

Lemma keep_both_pair dup w line rest :
  w_stdin w = line :: rest →
  lower (strip line) ∉ ["d"; "m"] →
  let r := handle_pair dup w in
  r.1 = inr ()
  ∧ no_mutation w r.2
  ∧ w_stdin r.2 = rest
  ∧ w_log r.2
    = w_log w ++ [Log INFO ("Keeping both files: " +:+ dup.1 +:+ " and " +:+ dup.2)].
Proof.
  intros Hin Hact. run_io. rewrite Hin. simpl.
  rewrite !not_elem_of_cons in Hact. destruct Hact as (Hd & Hm & _).
  rewrite !bool_decide_eq_false_2 by done. simpl. by repeat split.
Qed.

Lemma handle_pair_syscalls dup w :
  ∃ new, w_syscalls (handle_pair dup w).2 = w_syscalls w ++ new
    ∧ ∀ c, c ∈ new →
        c = SysRemove dup.1 ∨ ∃ t, c = SysMakedirs t ∨ c = SysMove dup.1 t.
Proof.
  run_io.
  repeat (case_match; simpl in *; simplify_eq);
    rewrite <- ?app_assoc; simpl;
    (eexists; split; [try reflexivity; symmetry; apply app_nil_r|]);
    intros c Hc; repeat (apply elem_of_cons in Hc as [->|Hc]; eauto);
    by apply elem_of_nil in Hc.
Qed.

(** C6. An input line that, stripped and lower-cased, is none of the
    recognized actions changes nothing in the file system: for a
    directory group the call returns after logging "Invalid action.
    Skipping directory" and reads no further line, and for a pair it
    returns after logging "Keeping both files" (this covers [k] and
    every unrecognized line). *)
Theorem unrecognized_input_is_safe (w : world) (line : string)
    (rest : list string) :
  w_stdin w = line :: rest →
  (∀ dir_path duplicates,
     lower (strip line) ∉ ["s"; "d"; "m"; "i"] →
     let r := handle_group (dir_path, duplicates) w in
     r.1 = inr ()
     ∧ no_mutation w r.2
     ∧ w_stdin r.2 = rest
     ∧ w_log r.2
       = w_log w
         ++ [Log INFO ("Invalid action. Skipping directory: " +:+ dir_path)])
  ∧ (∀ dup : dup_pair,
       lower (strip line) ∉ ["d"; "m"] →
       let r := handle_pair dup w in
       r.1 = inr ()
       ∧ no_mutation w r.2
       ∧ w_stdin r.2 = rest
       ∧ w_log r.2
         = w_log w
           ++ [Log INFO ("Keeping both files: " +:+ dup.1 +:+ " and "
                         +:+ dup.2)]).
Proof.
  intros Hin. split.
  - intros dir_path duplicates Hact. exact (skip_invalid_group dir_path duplicates w line rest Hin Hact).
  - intros dup Hact. exact (keep_both_pair dup w line rest Hin Hact).
Qed.

(** C1. What the code does where the claim expects the second member to be
    acted on: answering [D] for the pair [(x/b, x/a)] removes [x/b], the
    first member, and leaves [x/a]; answering [M] moves [x/b]; and for
    every pair and every input, the system calls [handle_pair] issues are
    a removal of the first member, a [makedirs] or a move of the first
    member, never an action on the second. *)
Theorem second_member_unreachable :
  (let r := handle_pair ("x/b", "x/a") (sample_world sample_fs ["D"]) in
   r.1 = inr ()
   ∧ w_syscalls r.2 = [SysRemove "x/b"]
   ∧ w_fs r.2 !! "x/b" = None
   ∧ w_fs r.2 !! "x/a" = Some (RegularFile [Byte.x61] true 5))
  ∧ (let r := handle_pair ("x/b", "x/a") (sample_world sample_fs ["M"; "t"]) in
     r.1 = inr ()
     ∧ w_syscalls r.2 = [SysMakedirs "t"; SysMove "x/b" "t"]
     ∧ w_fs r.2 !! "x/b" = None
     ∧ w_fs r.2 !! "t/b" = Some (RegularFile [Byte.x61] true 6)
     ∧ w_fs r.2 !! "x/a" = Some (RegularFile [Byte.x61] true 5))
  ∧ (∀ (dup : dup_pair) (w : world),
       ∃ new, w_syscalls (handle_pair dup w).2 = w_syscalls w ++ new
         ∧ ∀ c, c ∈ new →
             c = SysRemove dup.1
             ∨ ∃ t, c = SysMakedirs t ∨ c = SysMove dup.1 t).
Proof.
  split; [|split].
  - vm_compute. by repeat split.
  - vm_compute. by repeat split.
  - apply handle_pair_syscalls.
Qed.

(** ** Saving a report *)

Section Save.
Context (json : file_info_dict → list Byte.byte).

(** C8 (amended). When [output_file] is an existing directory and the
    default name inside it can be opened for writing (it is not itself a
    directory and the operating system does not refuse the write), the
    call returns, the report is written to [file_info_report.json] inside
    that directory, and the condition is reported by one console line and
    one log record of level ERROR with the same text. *)
Theorem save_into_directory (d : file_info_dict) (output_file : string)
    (w : world) :
  isdir (w_fs w) output_file = true →
  w_fs w !! path_join output_file default_report ≠ Some Directory →
  w_denied w (w_fs w) (SysWrite (path_join output_file default_report))
  = None →
  let r := save_file_info json d output_file w in
  let target := path_join output_file default_report in
  let text := "Error: " +:+ output_file +:+
    " is a directory. Saving to default file 'file_info_report.json'." in
  r.1 = inr ()
  ∧ (∃ readable,
       w_fs r.2 !! target = Some (RegularFile (json d) readable (w_clock w)))
  ∧ w_syscalls r.2 = w_syscalls w ++ [SysWrite target]
  ∧ w_stdout r.2 = w_stdout w ++ [text]
  ∧ w_log r.2 = w_log w ++ [Log ERROR text].
Proof.
  intros Hdir Hfree Hgranted.
  unfold save_file_info, write_json, os_path_isdir, do_syscall, attempt,
    write_effect, print, logging, mbind, mret, io_mbind, io_mret, io_bind,
    io_ret.
  simpl. rewrite Hdir. simpl. rewrite Hgranted.
  destruct (w_fs w !! path_join output_file default_report) as [[data rd mt|]|];
    simpl; [|done|].
  - repeat split; try done. exists rd. apply lookup_insert_eq.
  - repeat split; try done. exists true. apply lookup_insert_eq.
Qed.

(** The open for writing is the only thing that can make the call raise,
    and it does: when the operating system refuses the default file, the
    exception of [open] leaves the call, after the directory was
    reported. *)
Lemma save_into_directory_refused (d : file_info_dict) (output_file : string)
    (w : world) (e : exn) :
  isdir (w_fs w) output_file = true →
  w_fs w !! path_join output_file default_report ≠ Some Directory →
  w_denied w (w_fs w) (SysWrite (path_join output_file default_report))
  = Some e →
  let r := save_file_info json d output_file w in
  r.1 = inl e ∧ w_fs r.2 = w_fs w.
Proof.
  intros Hdir Hfree Hrefused.
  unfold save_file_info, write_json, os_path_isdir, do_syscall, attempt,
    write_effect, print, logging, mbind, mret, io_mbind, io_mret, io_bind,
    io_ret.
  simpl. rewrite Hdir. simpl. rewrite Hrefused.
  by destruct (w_fs w !! path_join output_file default_report) as [[data rd mt|]|].
Qed.
End Save.

(** C8, as stated, fails where the default name inside the directory is
    itself a directory: the write raises [IsADirectoryError], even under
    an operating system that refuses nothing. *)
Lemma save_into_blocked_directory_raises :
  ¬ saved_with_warning sample_json sample_dict "out"
      (sample_world blocked_fs []).
Proof.
  intros Hclaim. destruct (Hclaim eq_refl) as [Hret _].
  vm_compute in Hret. discriminate.
Qed.

(** On the plain sample tree the call succeeds and the only log record
    has level ERROR; no warning is logged. *)
Lemma save_into_directory_logs_error :
  let r := save_file_info sample_json sample_dict "out"
             (sample_world sample_fs []) in
  r.1 = inr ()
  ∧ w_log r.2
    = [Log ERROR "Error: out is a directory. Saving to default file 'file_info_report.json'."]
  ∧ ¬ ∃ text, Log WARNING text ∈ w_log r.2.
Proof.
  vm_compute. repeat split.
  intros [text Hin]. apply list_elem_of_singleton in Hin. discriminate.
Qed.

(** ** Instances on the sample tree *)

(** The scan of the sample directories skips the dot file. *)
Example scan_sample : scan sample_ignore sample_walk sample_dirs = sample_paths.
Proof. reflexivity. Qed.

Ltac by_computation := apply (bool_decide_unpack _); vm_compute; exact I.

(** An answer [D] preceded by a no-break space (U+00A0, bytes C2 A0) and
    followed by a blank is the answer [d]. *)
Example strip_no_break_space :
  lower (strip (String (ascii_of_nat 194) (String (ascii_of_nat 160) "D ")))
  = "d".
Proof. vm_compute. reflexivity. Qed.


Lemma reverse_completion_order : completion_order reverse.
Proof. intros l. apply reverse_Permutation. Qed.

Lemma identity_completion_order : completion_order (λ l, l).
Proof. by intros l. Qed.

(** The fan of the three sample files sharing the digest of their content. *)
Lemma find_duplicates_fan_witness :
  dict_wf sample_dict
  ∧ paths_with_hash "a" sample_dict = ["x/a"; "x/b"; "y/c"]
  ∧ filter (λ pr, pair_hash sample_dict pr = Some "a")
      (find_duplicates_from_info sample_dict)
    = [("x/b", "x/a"); ("y/c", "x/a")]
  ∧ find_duplicates_from_info sample_dict = [("x/b", "x/a"); ("y/c", "x/a")].
Proof.
  assert (Hwf : dict_wf sample_dict) by by_computation.
  assert (Hpaths : paths_with_hash "a" sample_dict = "x/a" :: ["x/b"; "y/c"])
    by (vm_compute; reflexivity).
  destruct (find_duplicates_fan sample_dict "a" "x/a" ["x/b"; "y/c"] Hwf Hpaths)
    as (Hfan & _ & _ & _ & Hall).
  split; [exact Hwf|]. split; [exact Hpaths|]. split; [exact Hfan|].
  apply Hall. intros h' Hne.
  assert (Hcases : ∀ h, h = "a" ∨ h = "d" ∨ paths_with_hash h sample_dict = []).
  { intros h. destruct (decide (h = "a")) as [|Ha]; [by left|].
    destruct (decide (h = "d")) as [|Hd]; [right; by left|].
    right. right. unfold paths_with_hash, sample_dict.
    rewrite !filter_cons, filter_nil. simpl.
    rewrite !decide_False; [done|vm_compute; congruence..]. }
  destruct (Hcases h') as [Heq|[Heq|Heq]].
  - by subst h'.
  - subst h'. vm_compute. lia.
  - rewrite Heq. simpl. lia.
Defined.



(** Delivery in submission order and in reverse order. *)
Lemma collect_order_independent_witness :
  (2 : Z) ≠ 0
  ∧ completion_order (λ l, l)
  ∧ completion_order reverse
  ∧ ∃ st1 st2,
      collect_file_info sample_digest 2 sample_ignore sample_walk sample_fs
            resumed_temp sample_dirs
        (λ l, l) = Ok st1
      ∧ collect_file_info sample_digest 2 sample_ignore sample_walk sample_fs
            resumed_temp sample_dirs
          reverse = Ok st2
      ∧ dict_eq (working st1) (working st2).
Proof.
  assert (HK : (2 : Z) ≠ 0) by lia.
  split; [exact HK|]. split; [exact identity_completion_order|].
  split; [exact reverse_completion_order|].
  exact (collect_order_independent sample_digest sample_ignore sample_walk 2
           sample_fs resumed_temp sample_dirs (λ l, l) reverse HK
           identity_completion_order reverse_completion_order).
Defined.





(** Verification of the stale report against the sample tree. *)
Lemma verify_keeps_exactly_witness :
  dict_wf stale_dict
  ∧ (verify_file_info sample_digest sample_fs stale_dict).1
    = filter (λ i, still_valid sample_digest sample_fs i = true) stale_dict.
Proof.
  assert (Hwf : dict_wf stale_dict) by by_computation.
  split; [exact Hwf|].
  exact (proj1 (verify_keeps_exactly sample_digest sample_fs stale_dict Hwf)).
Defined.

(** The unreadable sample file [x/u]. *)
Lemma unreadable_reported_as_changed_witness :
  dict_wf stale_dict
  ∧ ("x/u", sample_record "u" [Byte.x75] 10) ∈ stale_dict
  ∧ sample_fs !! "x/u" = Some (RegularFile [Byte.x75] false 10)
  ∧ open_rb sample_fs "x/u" = Raise (PermissionError "x/u")
  ∧ (file_hash sample_digest sample_fs "x/u").1 = None
  ∧ hash_changed "x/u" ∈ (verify_file_info sample_digest sample_fs stale_dict).2.
Proof.
  assert (Hwf : dict_wf stale_dict) by by_computation.
  assert (Hin : ("x/u", sample_record "u" [Byte.x75] 10) ∈ stale_dict).
  { unfold stale_dict. do 3 (apply elem_of_cons; right).
    apply elem_of_cons. by left. }
  assert (Hfs : sample_fs !! "x/u" = Some (RegularFile [Byte.x75] false 10))
    by (vm_compute; reflexivity).
  assert (Hopen : open_rb sample_fs "x/u" = Raise (PermissionError "x/u"))
    by (vm_compute; reflexivity).
  destruct (unreadable_reported_as_changed sample_digest sample_fs stale_dict
              "x/u" _ _ _ Hwf Hin Hfs Hopen) as (Hnone & _ & _ & Hlog & _).
  split; [exact Hwf|]. split; [exact Hin|]. split; [exact Hfs|].
  split; [exact Hopen|]. split; [exact Hnone|exact Hlog].
Defined.

(** The answer [x] at both levels. *)
Lemma unrecognized_input_is_safe_witness :
  w_stdin (sample_world sample_fs ["x"]) = ["x"]
  ∧ no_mutation (sample_world sample_fs ["x"])
      (handle_group ("x", [("x/b", "x/a")]) (sample_world sample_fs ["x"])).2
  ∧ no_mutation (sample_world sample_fs ["x"])
      (handle_pair ("x/b", "x/a") (sample_world sample_fs ["x"])).2.
Proof.
  assert (Hin : w_stdin (sample_world sample_fs ["x"]) = "x" :: []) by reflexivity.
  destruct (unrecognized_input_is_safe (sample_world sample_fs ["x"]) "x" [] Hin)
    as [Hgroup Hpair].
  split; [exact Hin|]. split.
  - apply (Hgroup "x" [("x/b", "x/a")]). by_computation.
  - apply (Hpair ("x/b", "x/a")). by_computation.
Defined.

(** Saving the sample report to the directory [out]. *)
Lemma save_into_directory_witness :
  isdir (w_fs (sample_world sample_fs [])) "out" = true
  ∧ w_fs (sample_world sample_fs []) !! path_join "out" default_report
    ≠ Some Directory
  ∧ w_denied (sample_world sample_fs []) (w_fs (sample_world sample_fs []))
      (SysWrite (path_join "out" default_report)) = None
  ∧ (save_file_info sample_json sample_dict "out"
       (sample_world sample_fs [])).1
    = inr ()
  ∧ w_log (save_file_info sample_json sample_dict "out"
             (sample_world sample_fs [])).2
    = [Log ERROR "Error: out is a directory. Saving to default file 'file_info_report.json'."].
Proof.
  assert (Hdir : isdir (w_fs (sample_world sample_fs [])) "out" = true)
    by (vm_compute; reflexivity).
  assert (Hfree : w_fs (sample_world sample_fs []) !! path_join "out" default_report
                  ≠ Some Directory) by (vm_compute; discriminate).
  assert (Hgranted : w_denied (sample_world sample_fs [])
                       (w_fs (sample_world sample_fs []))
                       (SysWrite (path_join "out" default_report)) = None)
    by reflexivity.
  destruct (save_into_directory sample_json sample_dict "out"
              (sample_world sample_fs []) Hdir Hfree Hgranted)
    as (Hret & _ & _ & _ & Hlog).
  split; [exact Hdir|]. split; [exact Hfree|]. split; [exact Hgranted|].
  split; [exact Hret|exact Hlog].
Defined.

(** * Further properties *)

(** ** Duplicate detector *)

Lemma paths_with_hash_member d p r :
  (p, r) ∈ d → p ∈ paths_with_hash (FileInfo.hash r) d.
Proof. intros Hin. apply paths_with_hash_elem. by exists r. Qed.

Lemma find_duplicates_iff (d : file_info_dict) (p q : string) :
  dict_wf d →
  (p, q) ∈ find_duplicates_from_info d
  ↔ ∃ r, (p, r) ∈ d ∧ first_with_hash (FileInfo.hash r) d = Some q ∧ q ≠ p.
Proof.
  intros Hwf. split; [by apply find_duplicates_elem|].
  intros (r & Hr & Hfirst & Hne).
  assert (Hp := paths_with_hash_member d p r Hr).
  unfold first_with_hash in Hfirst.
  destruct (paths_with_hash (FileInfo.hash r) d) as [|q' later] eqn:Hpaths;
    [done|].
  injection Hfirst as ->.
  apply elem_of_cons in Hp as [->|Hp]; [done|].
  assert (Hfilter :
    filter (λ pr, FileInfo.hash <$> dict_get d pr.1 = Some (FileInfo.hash r))
      (find_duplicates_loop d ∅ [])
    = (λ p, (p, q)) <$> later).
  { rewrite (find_duplicates_loop_filter (λ p, FileInfo.hash <$> dict_get d p)).
    - by rewrite lookup_empty, Hpaths.
    - intros p' r' Hin. by rewrite (dict_get_elem d p' r'). }
  assert (Hin : (p, q) ∈ (λ p, (p, q)) <$> later).
  { apply list_elem_of_fmap. by exists p. }
  rewrite <- Hfilter in Hin. by apply list_elem_of_filter in Hin as [_ ?].
Qed.

(** X1. On a mapping with unique keys, [(p, q)] is a returned pair exactly
    when [p] is a path of the mapping, [q] is the first path in iteration
    order carrying the hash of [p], and [q] is not [p]. *)
Theorem find_duplicates_characterised (d : file_info_dict) (p q : string) :
  dict_wf d →
  (p, q) ∈ find_duplicates_from_info d
  ↔ ∃ r, (p, r) ∈ d ∧ first_with_hash (FileInfo.hash r) d = Some q ∧ q ≠ p.
Proof. apply find_duplicates_iff. Qed.

(** X2. A path whose hash no other path of the mapping carries is a
    member of no returned pair, neither first nor second. *)
Theorem unique_hash_never_reported (d : file_info_dict) (p : string)
    (r : FileInfo.t) :
  dict_wf d → (p, r) ∈ d →
  paths_with_hash (FileInfo.hash r) d = [p] →
  ∀ a b, (a, b) ∈ find_duplicates_from_info d → a ≠ p ∧ b ≠ p.
Proof.
  intros Hwf Hr Honly a b Hin.
  apply find_duplicates_elem in Hin as (ra & Hra & Hfirst & Hne); [|done].
  split.
  - intros ->. assert (ra = r) as ->.
    { apply (dict_get_elem d p) in Hr, Hra; try done. congruence. }
    unfold first_with_hash in Hfirst. rewrite Honly in Hfirst. simpl in Hfirst.
    congruence.
  - intros ->.
    pose proof Hfirst as Hb. apply first_with_hash_elem in Hb.
    apply paths_with_hash_elem in Hb as (r' & Hr' & Hh).
    assert (r' = r) as ->.
    { apply (dict_get_elem d p) in Hr, Hr'; try done. congruence. }
    assert (Ha := paths_with_hash_member d a ra Hra).
    rewrite <- Hh, Honly in Ha. apply list_elem_of_singleton in Ha. done.
Qed.

Lemma find_duplicates_loop_count items hashes :
  (length (find_duplicates_loop items hashes [])
   + size (dom hashes ∪ list_to_set (FileInfo.hash <$> items.*2) : gset string)
   = length items + size (dom hashes))%nat.
Proof.
  revert hashes. induction items as [|[p r] items IH]; intros hashes.
  - simpl. by rewrite (right_id_L ∅ (∪)).
  - cbn [find_duplicates_loop fmap list_fmap list_to_set length snd].
    destruct (hashes !! FileInfo.hash r) as [q|] eqn:Hq.
    + rewrite find_duplicates_loop_acc, length_app. simpl.
      specialize (IH hashes).
      assert (Hdom : FileInfo.hash r ∈ dom hashes) by (by apply elem_of_dom).
      assert (Heq : dom hashes ∪ ({[FileInfo.hash r]}
                 ∪ list_to_set (FileInfo.hash <$> items.*2))
        = (dom hashes ∪ list_to_set (FileInfo.hash <$> items.*2) : gset string))
        by set_solver.
      rewrite Heq. lia.
    + specialize (IH (<[FileInfo.hash r := p]> hashes)).
      rewrite dom_insert_L in IH.
      assert (Hdom : FileInfo.hash r ∉ dom hashes) by (by apply not_elem_of_dom).
      assert (Heq : dom hashes ∪ ({[FileInfo.hash r]}
                 ∪ list_to_set (FileInfo.hash <$> items.*2))
        = ({[FileInfo.hash r]} ∪ dom hashes
           ∪ list_to_set (FileInfo.hash <$> items.*2) : gset string))
        by set_solver.
      rewrite Heq.
      rewrite (size_union {[FileInfo.hash r]} (dom hashes)) in IH by set_solver.
      rewrite size_singleton in IH. lia.
Qed.

(** X3. The number of returned pairs is the number of records minus the
    number of distinct hashes. *)
Theorem find_duplicates_count (d : file_info_dict) :
  (length (find_duplicates_from_info d) + size (distinct_hashes d)
   = length d)%nat.
Proof.
  unfold find_duplicates_from_info, distinct_hashes, stored_hashes.
  pose proof (find_duplicates_loop_count d ∅) as H.
  rewrite dom_empty_L, (left_id_L ∅ (∪)), size_empty in H. lia.
Qed.

Lemma find_duplicates_loop_firsts items hashes :
  (find_duplicates_loop items hashes []).*1 `sublist_of` items.*1.
Proof.
  revert hashes. induction items as [|[p r] items IH]; intros hashes; simpl.
  - done.
  - destruct (hashes !! FileInfo.hash r) as [q|].
    + rewrite find_duplicates_loop_acc, fmap_app. simpl.
      by apply sublist_skip.
    + by apply sublist_cons.
Qed.

(** X4. The first members of the returned pairs are keys of the mapping
    in iteration order, each at most once: a path is reported as a
    duplicate at most one time. *)
Theorem find_duplicates_firsts (d : file_info_dict) :
  dict_wf d →
  (find_duplicates_from_info d).*1 `sublist_of` keys d
  ∧ NoDup (find_duplicates_from_info d).*1.
Proof.
  intros Hwf.
  assert (Hsub := find_duplicates_loop_firsts d ∅).
  split; [done|]. by eapply sublist_NoDup.
Qed.

Lemma find_duplicates_loop_nil items hashes :
  find_duplicates_loop items hashes [] = []
  ↔ NoDup (FileInfo.hash <$> items.*2)
    ∧ ∀ h, h ∈ FileInfo.hash <$> items.*2 → hashes !! h = None.
Proof.
  revert hashes. induction items as [|[p r] items IH]; intros hashes; simpl.
  - split; [|done]. intros _. split; [constructor|]. by intros h ?%elem_of_nil.
  - destruct (hashes !! FileInfo.hash r) as [q|] eqn:Hq.
    + rewrite find_duplicates_loop_acc. split.
      * intros Hnil. by apply app_nil in Hnil as [? _].
      * intros [_ Hnone]. specialize (Hnone (FileInfo.hash r)).
        rewrite Hq in Hnone. discriminate Hnone. by left.
    + rewrite IH, NoDup_cons. split.
      * intros [Hnd Hnone]. split; [split; [|done]|].
        -- intros Hin. apply Hnone in Hin. by rewrite lookup_insert_eq in Hin.
        -- intros h [->|Hin]%elem_of_cons; [done|].
           specialize (Hnone h Hin).
           destruct (decide (FileInfo.hash r = h)) as [<-|Hne].
           ++ by rewrite lookup_insert_eq in Hnone.
           ++ by rewrite lookup_insert_ne in Hnone.
      * intros [[Hr Hnd] Hnone]. split; [done|].
        intros h Hin. rewrite lookup_insert_ne by (by intros <-).
        apply Hnone. by right.
Qed.

(** X5. No pair is returned exactly when the stored hashes are pairwise
    distinct; in particular on the empty mapping. *)
Theorem no_duplicates_iff_distinct (d : file_info_dict) :
  find_duplicates_from_info d = [] ↔ NoDup (stored_hashes d).
Proof.
  unfold find_duplicates_from_info, stored_hashes.
  rewrite find_duplicates_loop_nil. split; [by intros [? _]|].
  intros Hnd. split; [done|]. intros h _. apply lookup_empty.
Qed.

(** ** Grouping by directory *)

Lemma dict_mem_get {V} (d : pydict V) k :
  dict_mem d k = bool_decide (is_Some (dict_get d k)).
Proof.
  unfold dict_mem. apply bool_decide_ext.
  rewrite <- not_eq_None_Some, dict_get_None. split.
  - intros Hin Hn. done.
  - intros Hn. by destruct (decide (k ∈ keys d)).
Qed.

Lemma group_step_get g dup k :
  dict_get (group_step g dup) k
  = if decide (dirname dup.1 = k)
    then Some (default [] (dict_get g k) ++ [dup])
    else dict_get g k.
Proof.
  unfold group_step. rewrite dict_mem_get.
  destruct (dict_get g (dirname dup.1)) as [l|] eqn:Hg.
  - rewrite bool_decide_eq_true_2 by done. rewrite dict_get_set, Hg.
    destruct (decide (dirname dup.1 = k)) as [<-|]; [by rewrite Hg|done].
  - rewrite bool_decide_eq_false_2 by (by intros []).
    rewrite !dict_get_set. rewrite (decide_True _ _ (eq_refl (dirname dup.1))).
    destruct (decide (dirname dup.1 = k)) as [<-|]; [by rewrite Hg|done].
Qed.

Lemma group_foldl_get g dups k :
  dict_get (foldl group_step g dups) k
  = match dict_get g k, filter (λ dup : dup_pair, dirname dup.1 = k) dups with
    | Some l, new => Some (l ++ new)
    | None, [] => None
    | None, new => Some new
    end.
Proof.
  revert g. induction dups as [|dup dups IH]; intros g.
  - simpl. destruct (dict_get g k); [by rewrite app_nil_r|done].
  - cbn [foldl]. rewrite IH, group_step_get, filter_cons.
    destruct (decide (dirname dup.1 = k)) as [Heq|Hne]; [|done].
    destruct (dict_get g k) as [l|]; simpl; [by rewrite <- app_assoc|done].
Qed.

Lemma group_step_wf g dup : dict_wf g → dict_wf (group_step g dup).
Proof.
  intros Hwf. unfold group_step. apply dict_set_wf.
  destruct (dict_mem g (dirname dup.1)); [done|by apply dict_set_wf].
Qed.

Lemma group_foldl_wf g dups : dict_wf g → dict_wf (foldl group_step g dups).
Proof.
  revert g. induction dups as [|dup dups IH]; intros g Hwf; [done|].
  simpl. by apply IH, group_step_wf.
Qed.

(** X6. The groups have distinct directory keys, and the group stored
    under a directory is the list of the pairs whose first member lies in
    that directory, in their original order; a directory without such a
    pair has no entry, so no group is empty. *)
Theorem group_lookup (duplicates : list dup_pair) (dir_path : string) :
  dict_wf (group_duplicates_by_directory duplicates)
  ∧ dict_get (group_duplicates_by_directory duplicates) dir_path
    = match filter (λ dup : dup_pair, dirname dup.1 = dir_path) duplicates with
      | [] => None
      | group => Some group
      end.
Proof.
  split.
  - apply group_foldl_wf. constructor.
  - unfold group_duplicates_by_directory. rewrite group_foldl_get. simpl.
    by destruct (filter _ duplicates).
Qed.

Lemma concat_dict_set {A} (g : pydict (list A)) k x :
  concat (dict_set k (default [] (dict_get g k) ++ x) g).*2
  ≡ₚ concat g.*2 ++ x.
Proof.
  induction g as [|[k0 v0] g IH]; simpl.
  - by rewrite app_nil_r.
  - destruct (decide (k0 = k)) as [->|Hne]; simpl.
    + rewrite <- !app_assoc. f_equiv. apply Permutation_app_comm.
    + rewrite IH. by rewrite app_assoc.
Qed.

Lemma group_step_concat g dup :
  concat (group_step g dup).*2 ≡ₚ concat g.*2 ++ [dup].
Proof.
  unfold group_step. rewrite concat_dict_set.
  destruct (dict_mem g (dirname dup.1)) eqn:Hmem; [done|].
  f_equiv.
  rewrite dict_mem_get in Hmem. apply bool_decide_eq_false in Hmem.
  assert (Hnone : dict_get g (dirname dup.1) = None).
  { destruct (dict_get g (dirname dup.1)); [|done]. by destruct Hmem. }
  pose proof (concat_dict_set g (dirname dup.1) []) as H.
  rewrite Hnone in H. simpl in H. by rewrite app_nil_r in H.
Qed.

Lemma group_concat (duplicates : list dup_pair) :
  concat (group_duplicates_by_directory duplicates).*2 ≡ₚ duplicates.
Proof.
  unfold group_duplicates_by_directory.
  assert (Hgen : ∀ g, concat (foldl group_step g duplicates).*2
                      ≡ₚ concat g.*2 ++ duplicates).
  { induction duplicates as [|dup dups IH]; intros g; simpl.
    - by rewrite app_nil_r.
    - rewrite IH, group_step_concat. by rewrite <- app_assoc. }
  by rewrite Hgen.
Qed.

(** X7. The groups taken together hold every pair exactly once: their
    concatenation is a permutation of the list that was grouped. *)
Theorem group_partition (duplicates : list dup_pair) :
  concat (group_duplicates_by_directory duplicates).*2 ≡ₚ duplicates.
Proof. apply group_concat. Qed.

(** ** Resolution engine, further *)

Lemma for_each_cons {A} (body : A → io unit) x l w :
  for_each body (x :: l) w
  = match body x w with
    | (inl e, w') => (inl e, w')
    | (inr _, w') => for_each body l w'
    end.
Proof. reflexivity. Qed.

(** What [try_remove] does: the call is recorded; the file is removed
    when the removal succeeds, else the tree is left as it was and the
    failure is reported. *)
Lemma try_remove_spec what p w :
  let r := try_remove what p w in
  r.1 = inr ()
  ∧ w_stdin r.2 = w_stdin w
  ∧ w_denied r.2 = w_denied w
  ∧ w_syscalls r.2 = w_syscalls w ++ [SysRemove p]
  ∧ w_fs r.2
    = match attempt (w_denied w) (SysRemove p) (remove_effect p) (w_fs w) with
      | Ok fs' => fs'
      | Raise _ => w_fs w
      end.
Proof.
  run_io.
  by destruct (attempt (w_denied w) (SysRemove p) (remove_effect p) (w_fs w)).
Qed.

Lemma attempt_remove_granted denied p fs :
  denied fs (SysRemove p) = None →
  match attempt denied (SysRemove p) (remove_effect p) fs with
  | Ok fs' => fs'
  | Raise _ => fs
  end
  = match fs !! p with
    | Some (RegularFile _ _ _) => delete p fs
    | _ => fs
    end.
Proof.
  intros Hgrant. unfold attempt, remove_effect.
  destruct (fs !! p) as [[]|]; try done. by rewrite Hgrant.
Qed.


Ltac run_group :=
  unfold handle_group, input_action, input, print, logging,
    mbind, mret, io_mbind, io_mret, io_bind, io_ret;
  simpl.


Lemma handle_group_passive dir_path (duplicates : list dup_pair) w line rest :
  w_stdin w = line :: rest →
  lower (strip line) ∉ ["d"; "m"; "i"] →
  let r := handle_group (dir_path, duplicates) w in
  r.1 = inr () ∧ no_mutation w r.2 ∧ w_stdin r.2 = rest.
Proof.
  intros Hin Hact. run_group. rewrite Hin. simpl.
  rewrite !not_elem_of_cons in Hact. destruct Hact as (Hd & Hm & Hi & _).
  rewrite (bool_decide_eq_false_2 (lower (strip line) = "d")) by done.
  rewrite (bool_decide_eq_false_2 (lower (strip line) = "m")) by done.
  rewrite (bool_decide_eq_false_2 (lower (strip line) = "i")) by done.
  by destruct (bool_decide (lower (strip line) = "s")).
Qed.

(** X9. A run in which every directory is answered with [s] or with an
    unrecognized line returns after reading one line per directory and
    changes nothing in the file system. *)
Theorem handle_duplicates_passive (grouped : pydict (list dup_pair))
    (w : world) (answers rest : list string) :
  w_stdin w = answers ++ rest →
  length answers = length grouped →
  Forall (λ line, lower (strip line) ∉ ["d"; "m"; "i"]) answers →
  let r := handle_duplicates grouped w in
  r.1 = inr () ∧ no_mutation w r.2 ∧ w_stdin r.2 = rest.
Proof.
  unfold handle_duplicates. revert w answers.
  induction grouped as [|[dir_path dups] grouped IH];
    intros w answers Hin Hlen Hall.
  - destruct answers; [|done]. simpl in *. by repeat split.
  - destruct answers as [|line answers]; [done|].
    apply Forall_cons in Hall as [Hline Hall].
    rewrite for_each_cons.
    destruct (handle_group_passive dir_path dups w line (answers ++ rest)
                Hin Hline) as (Hret & [Hfs Hsys] & Hstdin).
    destruct (handle_group (dir_path, dups) w) as [res w1].
    simpl in Hret, Hfs, Hsys, Hstdin. subst res.
    destruct (IH w1 answers Hstdin) as (Hret' & [Hfs' Hsys'] & Hstdin');
      [by simplify_eq/=|done|].
    split; [done|]. split; [|done]. split; congruence.
Qed.



(** X11. A blank answer to the target-directory prompt aborts the run:
    [os.makedirs] is called on the empty path outside any [try], its
    [FileNotFoundError] propagates, and no file has been moved; this holds
    for the bulk move and for the move of a single pair. *)
Theorem blank_target_aborts (w : world) (line target : string)
    (rest : list string) :
  w_stdin w = line :: target :: rest →
  lower (strip line) = "m" →
  strip target = "" →
  w_fs w !! "" = None →
  (∀ dir_path duplicates,
     let r := handle_group (dir_path, duplicates) w in
     r.1 = inl (FileNotFoundError "")
     ∧ w_fs r.2 = w_fs w
     ∧ w_syscalls r.2 = w_syscalls w ++ [SysMakedirs ""])
  ∧ (∀ dup : dup_pair,
       let r := handle_pair dup w in
       r.1 = inl (FileNotFoundError "")
       ∧ w_fs r.2 = w_fs w
       ∧ w_syscalls r.2 = w_syscalls w ++ [SysMakedirs ""]).
Proof.
  intros Hin Hact Htarget Hfree. split.
  - intros dir_path duplicates. run_io. rewrite Hin. simpl.
    rewrite Hact. simpl. rewrite Htarget. simpl.
    unfold path_exists, makedirs_effect. rewrite Hfree. by simpl.
  - intros dup. run_io. rewrite Hin. simpl.
    rewrite Hact. simpl. rewrite Htarget. simpl.
    unfold path_exists, makedirs_effect. rewrite Hfree. by simpl.
Qed.

(** X12. Answering [d] for a pair never raises and issues one removal,
    of the first member; the second member is named by no call.  Where
    the operating system does not refuse the removal, a regular file at
    the first member is gone afterwards and anything else there is as
    before; where it refuses, the tree is unchanged. *)
Theorem delete_first_only (dup : dup_pair) (w : world) (line : string)
    (rest : list string) :
  w_stdin w = line :: rest →
  lower (strip line) = "d" →
  let r := handle_pair dup w in
  r.1 = inr ()
  ∧ w_stdin r.2 = rest
  ∧ w_syscalls r.2 = w_syscalls w ++ [SysRemove dup.1]
  ∧ (w_denied w (w_fs w) (SysRemove dup.1) = None →
     w_fs r.2 !! dup.1
     = match w_fs w !! dup.1 with
       | Some (RegularFile _ _ _) => None
       | o => o
       end)
  ∧ (is_Some (w_denied w (w_fs w) (SysRemove dup.1)) → w_fs r.2 = w_fs w).
Proof.
  intros Hin Hact.
  unfold handle_pair, input_action, input, print,
    mbind, mret, io_mbind, io_mret, io_bind, io_ret.
  simpl. rewrite Hin. simpl. rewrite Hact. simpl.
  match goal with
  | |- context [try_remove ?what ?p ?w1] =>
      destruct (try_remove_spec what p w1)
        as (Hret & Hstdin & _ & Hsys & Hfs)
  end.
  simpl in *. split; [done|]. split; [done|]. split; [done|]. split.
  - intros Hgrant. rewrite Hfs, attempt_remove_granted by done.
    destruct (w_fs w !! dup.1) as [[]|] eqn:Hp; try done.
    by rewrite lookup_delete_eq.
  - intros [e He]. rewrite Hfs. unfold attempt.
    destruct (remove_effect dup.1 (w_fs w)); [|done]. by rewrite He.
Qed.

(** ** Fingerprint coordinator, further *)


Section CollectMore.
Context (xxh : list Byte.byte → string).




(** The configuration of the scan. *)
Context (ignore_list : list string).
Context (os_walk : string → list (string * list string)).





(** X15. With [save_interval] 0 the call raises [ZeroDivisionError] as
    soon as one path has to be fingerprinted. *)
Theorem zero_interval_raises fs temp directories as_completed :
  completion_order as_completed →
  submitted (load_progress temp) (scan ignore_list os_walk directories) ≠ [] →
  collect_file_info xxh 0 ignore_list os_walk fs temp directories as_completed
  = Raise ZeroDivisionError.
Proof.
  intros Hperm Hne. unfold collect_file_info, collect_scanned.
  destruct (as_completed _) as [|p rest] eqn:Hc.
  - destruct Hne. apply Permutation_nil_r. by rewrite <- (Hperm _), Hc.
  - cbn [collect_loop]. rewrite collect_step_eq. done.
Qed.




End CollectMore.

(** ** Checkpoint verification, further *)

Lemma filter_wf {V} (P : string * V → Prop) `{∀ x, Decision (P x)}
    (d : pydict V) :
  dict_wf d → dict_wf (filter P d).
Proof.
  unfold dict_wf, keys. induction d as [|[k v] d IH]; simpl; [done|].
  rewrite NoDup_cons. intros [Hk Hnd]. rewrite filter_cons.
  destruct (decide (P (k, v))); [|by apply IH].
  simpl. apply NoDup_cons. split; [|by apply IH].
  intros Hin. apply Hk. apply list_elem_of_fmap in Hin as [[k' v'] [-> Hin]].
  apply list_elem_of_filter in Hin as [_ Hin].
  apply list_elem_of_fmap. by exists (k', v').
Qed.

Section VerifyMore.
Context (xxh : list Byte.byte → string).

Lemma file_hash_quiet fs p digest :
  (file_hash xxh fs p).1 = Some digest → (file_hash xxh fs p).2 = [].
Proof. unfold file_hash. by destruct (file_hash_try xxh fs p). Qed.

Lemma verify_report_valid fs item :
  still_valid xxh fs item = true → verify_report xxh fs item = [].
Proof.
  intros Hv. unfold verify_report. rewrite Hv.
  unfold still_valid in Hv. apply andb_true_iff in Hv as [He Hh].
  rewrite He. apply bool_decide_eq_true in Hh.
  by rewrite (file_hash_quiet _ _ _ Hh).
Qed.

Lemma verify_all_valid fs d :
  dict_wf d → (∀ item, item ∈ d → still_valid xxh fs item = true) →
  verify_file_info xxh fs d = (d, []).
Proof.
  intros Hwf Hall. rewrite verify_file_info_eq by done. f_equal.
  - by apply filter_all.
  - induction d as [|item d IH]; [done|]. simpl.
    rewrite verify_report_valid by (apply Hall; by left). simpl.
    apply IH.
    + unfold dict_wf, keys in *. simpl in Hwf. by apply NoDup_cons in Hwf as [_ ?].
    + intros i Hi. apply Hall. by right.
Qed.

(** X20. Verifying an already verified mapping on the same tree returns
    it unchanged and logs nothing. *)
Theorem verify_idempotent fs d :
  dict_wf d →
  verify_file_info xxh fs (verify_file_info xxh fs d).1
  = ((verify_file_info xxh fs d).1, []).
Proof.
  intros Hwf. rewrite (verify_file_info_eq xxh fs d Hwf). simpl.
  apply verify_all_valid.
  - by apply filter_wf.
  - by intros item [? _]%list_elem_of_filter.
Qed.

Lemma verify_report_warnings fs item :
  length (filter (λ rec, is_warning rec = true) (verify_report xxh fs item))
  = if still_valid xxh fs item then 0%nat else 1%nat.
Proof.
  unfold verify_report, still_valid.
  destruct (path_exists fs item.1); simpl; [|done].
  unfold file_hash. destruct (file_hash_try xxh fs item.1) as [digest|e]; simpl.
  - by case_bool_decide.
  - done.
Qed.

(** X21. Every record is either kept or reported by exactly one warning:
    the number of kept records plus the number of WARNING records in the
    log is the number of records verified. *)
Theorem verify_warns_once_per_drop fs d :
  dict_wf d →
  (length (verify_file_info xxh fs d).1
   + length (filter (λ rec, is_warning rec = true)
               (verify_file_info xxh fs d).2)
   = length d)%nat.
Proof.
  intros Hwf. rewrite verify_file_info_eq by done. simpl. clear Hwf.
  induction d as [|item d IH]; [done|].
  cbn [mbind list_bind]. rewrite filter_cons, filter_app, length_app.
  rewrite verify_report_warnings.
  destruct (still_valid xxh fs item); simpl in *; lia.
Qed.

End VerifyMore.

(** ** Scanner *)

Lemma ignored_empty_prefix ignore_list file :
  "" ∈ ignore_list → ignored ignore_list file = true.
Proof.
  intros Hin. unfold ignored. apply existsb_exists. exists "".
  split; [by apply list_elem_of_In|]. unfold startswith. by destruct file.
Qed.

(** X22. An empty string in the ignore list matches every file name, so
    the scan returns no path at all. *)
Theorem empty_prefix_ignores_everything (ignore_list : list string)
    (os_walk : string → list (string * list string))
    (directories : list string) :
  "" ∈ ignore_list → scan ignore_list os_walk directories = [].
Proof.
  intros Hin. unfold scan.
  induction directories as [|dir dirs IH]; [done|].
  cbn [mbind list_bind]. rewrite IH, app_nil_r.
  induction (os_walk dir) as [|[root files] walked IHw]; [done|].
  cbn [mbind list_bind]. rewrite IHw, app_nil_r.
  induction files as [|file files IHf]; [done|].
  rewrite filter_cons, decide_False; [done|].
  by rewrite ignored_empty_prefix.
Qed.

(** The scanned paths are the joined names of the walked files that start
    with none of the ignore prefixes. *)
Lemma scan_members (ignore_list : list string)
    (os_walk : string → list (string * list string))
    (directories : list string) (p : string) :
  p ∈ scan ignore_list os_walk directories
  ↔ ∃ directory root files file,
      directory ∈ directories
      ∧ (root, files) ∈ os_walk directory
      ∧ file ∈ files
      ∧ (∀ prefix, prefix ∈ ignore_list → startswith file prefix = false)
      ∧ p = path_join root file.
Proof.
  unfold scan. rewrite list_elem_of_bind. split.
  - intros (dir & Hp & Hdir). apply list_elem_of_bind in Hp
      as ([root files] & Hp & Hwalk).
    apply list_elem_of_bind in Hp as (file & Hp & Hfile).
    apply list_elem_of_singleton in Hp.
    apply list_elem_of_filter in Hfile as [Hign Hfile].
    exists dir, root, files, file. repeat split; try done.
    intros prefix Hprefix. unfold ignored in Hign.
    destruct (startswith file prefix) eqn:Hs; [|done].
    assert (existsb (startswith file) ignore_list = true); [|congruence].
    apply existsb_exists. exists prefix. split; [by apply list_elem_of_In|done].
  - intros (dir & root & files & file & Hdir & Hwalk & Hfile & Hign & ->).
    exists dir. split; [|done]. apply list_elem_of_bind.
    exists (root, files). split; [|done]. apply list_elem_of_bind.
    exists file. split; [by left|]. apply list_elem_of_filter. split; [|done].
    unfold ignored. destruct (existsb _ _) eqn:He; [|done].
    apply existsb_exists in He as (prefix & Hin & Hs).
    apply list_elem_of_In in Hin. by rewrite Hign in Hs.
Qed.

(** ** Fingerprinter *)

Section FileHashMore.
Context (xxh : list Byte.byte → string).

(** X23. [file_hash] returns a digest exactly for a readable, non-empty
    regular file, the digest of its bytes, and then logs nothing; in every
    other case it returns [None] and logs one ERROR record naming the
    path and the exception. *)
Theorem file_hash_outcome (fs : filesystem) (p : string) :
  (∀ h, (file_hash xxh fs p).1 = Some h
        ↔ ∃ data mtime, fs !! p = Some (RegularFile data true mtime)
                        ∧ data ≠ [] ∧ h = xxh data)
  ∧ (is_Some (file_hash xxh fs p).1 → (file_hash xxh fs p).2 = [])
  ∧ ((file_hash xxh fs p).1 = None →
     ∃ e, (file_hash xxh fs p).2
          = [Log ERROR ("Error reading " +:+ p +:+ ": " +:+ exn_str e)]).
Proof.
  split; [|split].
  - intros h. split; [apply file_hash_Some|].
    intros (data & mtime & Hfs & Hdata & ->).
    unfold file_hash, file_hash_try, open_rb. rewrite Hfs.
    by destruct data.
  - intros [h Hh]. unfold file_hash in *.
    by destruct (file_hash_try xxh fs p).
  - unfold file_hash. destruct (file_hash_try xxh fs p) as [|e]; [done|].
    intros _. by exists e.
Qed.
End FileHashMore.

(** ** Resolution engine: the system calls of a run *)

Lemma appends_only_mono {A} (m : io A) (Q Q' : syscall → Prop) :
  (∀ c, Q c → Q' c) → appends_only m Q → appends_only m Q'.
Proof.
  intros Himp Hm w. destruct (Hm w) as (new & Heq & Hall).
  exists new. split; [done|]. intros c Hc. by apply Himp, Hall.
Qed.

Lemma appends_only_bind {A B} (m : io A) (k : A → io B) Q :
  appends_only m Q → (∀ a, appends_only (k a) Q) → appends_only (m ≫= k) Q.
Proof.
  intros Hm Hk w. unfold mbind, io_mbind, io_bind.
  destruct (Hm w) as (new & Heq & Hall).
  destruct (m w) as [[e|a] w1]; simpl in *.
  - by exists new.
  - destruct (Hk a w1) as (new' & Heq' & Hall').
    exists (new ++ new'). split; [by rewrite Heq', Heq, app_assoc|].
    intros c [?|?]%elem_of_app; auto.
Qed.

Lemma appends_only_pure {A} (m : io A) Q :
  (∀ w, w_syscalls (m w).2 = w_syscalls w) → appends_only m Q.
Proof.
  intros Hm w. exists []. rewrite app_nil_r. split; [done|].
  by intros c ?%elem_of_nil.
Qed.

Lemma appends_only_for_each {A} (body : A → io unit) (Q : A → syscall → Prop) l :
  (∀ x, appends_only (body x) (Q x)) →
  appends_only (for_each body l) (λ c, ∃ x, x ∈ l ∧ Q x c).
Proof.
  intros Hbody. induction l as [|x l IH].
  - by apply appends_only_pure.
  - simpl. apply appends_only_bind.
    + eapply appends_only_mono; [|apply Hbody].
      intros c Hc. exists x. split; [by left|done].
    + intros _. eapply appends_only_mono; [|apply IH].
      intros c (y & Hy & Hc). exists y. split; [by right|done].
Qed.

Lemma appends_only_try_remove what p :
  appends_only (try_remove what p) (λ c, c = SysRemove p).
Proof.
  intros w. run_io. exists [SysRemove p].
  destruct (attempt _ _ (remove_effect p) (w_fs w)); simpl;
    (split; [done|]); by intros c ->%list_elem_of_singleton.
Qed.

Lemma appends_only_try_move what p t :
  appends_only (try_move what p t) (λ c, c = SysMove p t).
Proof.
  intros w. run_io. exists [SysMove p t].
  destruct (attempt _ _ (move_effect p t) (w_fs w)); simpl;
    (split; [done|]); by intros c ->%list_elem_of_singleton.
Qed.

Lemma appends_only_ask_target :
  appends_only ask_target_directory (λ c, ∃ t, c = SysMakedirs t).
Proof.
  intros w. run_io.
  repeat (case_match; simpl in *; simplify_eq);
    (eexists; split; [try reflexivity; symmetry; apply app_nil_r|]);
    intros c Hc; repeat (apply elem_of_cons in Hc as [->|Hc]; eauto);
    by apply elem_of_nil in Hc.
Qed.

Lemma appends_only_handle_pair dup :
  appends_only (handle_pair dup) (on_first_member dup).
Proof. intros w. apply handle_pair_syscalls. Qed.

Lemma appends_only_input_action prompt Q :
  appends_only (input_action prompt) Q.
Proof. apply appends_only_pure. intros w. run_io. by destruct (w_stdin w). Qed.

Lemma appends_only_print s Q : appends_only (print s) Q.
Proof. by apply appends_only_pure. Qed.

Lemma appends_only_logging l s Q : appends_only (logging l s) Q.
Proof. by apply appends_only_pure. Qed.

Lemma appends_only_handle_group dir_path (duplicates : list dup_pair) :
  appends_only (handle_group (dir_path, duplicates))
    (λ c, (∃ t, c = SysMakedirs t)
          ∨ ∃ dup, dup ∈ duplicates ∧ on_first_member dup c).
Proof.
  unfold handle_group.
  apply appends_only_bind; [apply appends_only_print|]. intros _.
  apply appends_only_bind; [apply appends_only_input_action|]. intros action.
  repeat case_bool_decide.
  - apply appends_only_bind; [apply appends_only_print|]. intros _.
    apply appends_only_logging.
  - eapply appends_only_mono; [|apply (appends_only_for_each _
      (λ dup c, c = SysRemove dup.1))].
    + intros c (dup & Hdup & ->). right. exists dup. split; [done|]. by left.
    + intros dup. apply appends_only_try_remove.
  - apply appends_only_bind.
    + eapply appends_only_mono; [|apply appends_only_ask_target]. by left.
    + intros target. eapply appends_only_mono; [|apply (appends_only_for_each _
        (λ dup c, c = SysMove dup.1 target))].
      * intros c (dup & Hdup & ->). right. exists dup. split; [done|].
        right. exists target. by right.
      * intros dup. apply appends_only_try_move.
  - eapply appends_only_mono; [|apply (appends_only_for_each _ on_first_member)].
    + intros c (dup & Hdup & Hc). right. by exists dup.
    + apply appends_only_handle_pair.
  - apply appends_only_bind; [apply appends_only_print|]. intros _.
    apply appends_only_logging.
Qed.

Lemma handle_duplicates_syscalls (grouped : pydict (list dup_pair))
    (w : world) :
  ∃ new,
    w_syscalls (handle_duplicates grouped w).2 = w_syscalls w ++ new
    ∧ ∀ c, c ∈ new →
        (∃ t, c = SysMakedirs t)
        ∨ ∃ dup, dup ∈ concat grouped.*2
                 ∧ (c = SysRemove dup.1 ∨ ∃ t, c = SysMove dup.1 t).
Proof.
  pose proof (appends_only_for_each handle_group
    (λ group c, (∃ t, c = SysMakedirs t)
                ∨ ∃ dup, dup ∈ group.2 ∧ on_first_member dup c) grouped) as H.
  destruct (H (λ group, match group with
                        | (dir_path, dups) =>
                            appends_only_handle_group dir_path dups
                        end) w) as (new & Heq & Hall).
  exists new. split; [done|]. intros c Hc.
  destruct (Hall c Hc) as ([dir_path dups] & Hgroup & [Hmk|(dup & Hdup & Hon)]);
    [by left|].
  destruct Hon as [Hc'|[t [Hc'|Hc']]]; subst c; [|left; by exists t|].
  - right. exists dup. split; [|by left].
    apply list_elem_of_In, in_concat. exists dups.
    split; [|by apply list_elem_of_In].
    apply list_elem_of_In, list_elem_of_fmap. by exists (dir_path, dups).
  - right. exists dup. split; [|right; by exists t].
    apply list_elem_of_In, in_concat. exists dups.
    split; [|by apply list_elem_of_In].
    apply list_elem_of_In, list_elem_of_fmap. by exists (dir_path, dups).
Qed.

(** X26. Whatever is answered, every system call a run of the engine
    issues is the creation of a target directory, or the removal or the
    move of the first member of one of the grouped pairs; no call names a
    path only because it is a second member. *)
Theorem engine_acts_on_first_members (grouped : pydict (list dup_pair))
    (w : world) :
  ∃ new,
    w_syscalls (handle_duplicates grouped w).2 = w_syscalls w ++ new
    ∧ ∀ c, c ∈ new →
        (∃ t, c = SysMakedirs t)
        ∨ ∃ dup, dup ∈ concat grouped.*2
                 ∧ (c = SysRemove dup.1 ∨ ∃ t, c = SysMove dup.1 t).
Proof. apply handle_duplicates_syscalls. Qed.


(** ** Resolution engine: bulk move *)

Lemma try_move_returns what p t w :
  let r := try_move what p t w in
  r.1 = inr ()
  ∧ w_stdin r.2 = w_stdin w
  ∧ w_syscalls r.2 = w_syscalls w ++ [SysMove p t].
Proof. run_io. by destruct (attempt _ _ (move_effect p t) (w_fs w)). Qed.

Lemma bulk_move_returns what (duplicates : list dup_pair) t w :
  let r := for_each (λ dup : dup_pair, try_move what dup.1 t) duplicates w in
  r.1 = inr ()
  ∧ w_stdin r.2 = w_stdin w
  ∧ w_syscalls r.2
    = w_syscalls w ++ ((λ dup : dup_pair, SysMove dup.1 t) <$> duplicates).
Proof.
  revert w. induction duplicates as [|dup dups IH]; intros w.
  - simpl. by rewrite app_nil_r.
  - rewrite for_each_cons.
    destruct (try_move_returns what dup.1 t w) as (Hret & Hin & Hsys).
    destruct (try_move what dup.1 t w) as [res w1]. simpl in *. subst res.
    destruct (IH w1) as (Hret' & Hin' & Hsys').
    split; [done|]. split; [congruence|].
    by rewrite Hsys', Hsys, <- app_assoc.
Qed.

(** X27. Answering [m] for a directory with a target that already exists
    never raises: one move into the target is attempted per pair, on its
    first member and in order, whatever the outcome of the moves before
    it. *)
Theorem bulk_move_isolated (dir_path : string) (duplicates : list dup_pair)
    (w : world) (line target : string) (rest : list string) :
  w_stdin w = line :: target :: rest →
  lower (strip line) = "m" →
  path_exists (w_fs w) (strip target) = true →
  let r := handle_group (dir_path, duplicates) w in
  r.1 = inr ()
  ∧ w_stdin r.2 = rest
  ∧ w_syscalls r.2
    = w_syscalls w
      ++ ((λ dup : dup_pair, SysMove dup.1 (strip target)) <$> duplicates).
Proof.
  intros Hin Hact Hex.
  unfold handle_group, input_action, ask_target_directory, os_path_exists,
    input, print, logging, mbind, mret, io_mbind, io_mret, io_bind, io_ret.
  simpl. rewrite Hin. simpl. rewrite Hact. simpl. rewrite Hex. simpl.
  match goal with
  | |- context [for_each ?body duplicates ?w1] =>
      destruct (bulk_move_returns "Error moving file " duplicates
                  (strip target) w1) as (Hret & Hstdin & Hsys)
  end.
  simpl in *. done.
Qed.

(** ** Further instances on the sample tree *)

(** The pair of [y/c] in the sample mapping. *)
Lemma find_duplicates_characterised_witness :
  dict_wf sample_dict
  ∧ (("y/c", "x/a") ∈ find_duplicates_from_info sample_dict
     ↔ ∃ r, ("y/c", r) ∈ sample_dict
            ∧ first_with_hash (FileInfo.hash r) sample_dict = Some "x/a"
            ∧ "x/a" ≠ "y/c").
Proof.
  assert (Hwf : dict_wf sample_dict) by by_computation.
  split; [exact Hwf|].
  exact (find_duplicates_characterised sample_dict "y/c" "x/a" Hwf).
Defined.

(** The sample file [x/d], the only one with its content. *)
Lemma unique_hash_never_reported_witness :
  dict_wf sample_dict
  ∧ ("x/d", sample_record "d" [Byte.x64] 8) ∈ sample_dict
  ∧ paths_with_hash (FileInfo.hash (sample_record "d" [Byte.x64] 8)) sample_dict
    = ["x/d"]
  ∧ ∀ a b, (a, b) ∈ find_duplicates_from_info sample_dict →
           a ≠ "x/d" ∧ b ≠ "x/d".
Proof.
  assert (Hwf : dict_wf sample_dict) by by_computation.
  assert (Hin : ("x/d", sample_record "d" [Byte.x64] 8) ∈ sample_dict).
  { unfold sample_dict. do 3 (apply elem_of_cons; right).
    apply elem_of_cons. by left. }
  assert (Honly : paths_with_hash
                    (FileInfo.hash (sample_record "d" [Byte.x64] 8)) sample_dict
                  = ["x/d"]) by (vm_compute; reflexivity).
  split; [exact Hwf|]. split; [exact Hin|]. split; [exact Honly|].
  exact (unique_hash_never_reported sample_dict "x/d" _ Hwf Hin Honly).
Defined.

(** The first members on the sample mapping. *)
Lemma find_duplicates_firsts_witness :
  dict_wf sample_dict
  ∧ (find_duplicates_from_info sample_dict).*1 `sublist_of` keys sample_dict
  ∧ NoDup (find_duplicates_from_info sample_dict).*1.
Proof.
  assert (Hwf : dict_wf sample_dict) by by_computation.
  split; [exact Hwf|]. exact (find_duplicates_firsts sample_dict Hwf).
Defined.


(** Two sample groups answered with [s] and with an unrecognized line. *)
Lemma handle_duplicates_passive_witness :
  w_stdin (sample_world sample_fs ["s"; "what?"]) = ["s"; "what?"] ++ []
  ∧ length ["s"; "what?"]
    = length (group_duplicates_by_directory
                (find_duplicates_from_info sample_dict))
  ∧ Forall (λ line, lower (strip line) ∉ ["d"; "m"; "i"]) ["s"; "what?"]
  ∧ no_mutation (sample_world sample_fs ["s"; "what?"])
      (handle_duplicates
         (group_duplicates_by_directory (find_duplicates_from_info sample_dict))
         (sample_world sample_fs ["s"; "what?"])).2.
Proof.
  assert (Hin : w_stdin (sample_world sample_fs ["s"; "what?"])
                = ["s"; "what?"] ++ []) by reflexivity.
  assert (Hlen : length ["s"; "what?"]
                 = length (group_duplicates_by_directory
                             (find_duplicates_from_info sample_dict)))
    by (vm_compute; reflexivity).
  assert (Hall : Forall (λ line, lower (strip line) ∉ ["d"; "m"; "i"])
                   ["s"; "what?"]).
  { repeat constructor; by_computation. }
  split; [exact Hin|]. split; [exact Hlen|]. split; [exact Hall|].
  exact (proj1 (proj2 (handle_duplicates_passive _ _ _ _ Hin Hlen Hall))).
Defined.


(** A bulk move answered with a blank target. *)
Lemma blank_target_aborts_witness :
  w_stdin (sample_world sample_fs ["m"; "  "]) = ["m"; "  "]
  ∧ lower (strip "m") = "m"
  ∧ strip "  " = ""
  ∧ w_fs (sample_world sample_fs ["m"; "  "]) !! "" = None
  ∧ (handle_group ("x", [("x/b", "x/a")])
       (sample_world sample_fs ["m"; "  "])).1
    = inl (FileNotFoundError "").
Proof.
  assert (Hin : w_stdin (sample_world sample_fs ["m"; "  "]) = "m" :: "  " :: [])
    by reflexivity.
  assert (Hact : lower (strip "m") = "m") by (vm_compute; reflexivity).
  assert (Htarget : strip "  " = "") by (vm_compute; reflexivity).
  assert (Hfree : w_fs (sample_world sample_fs ["m"; "  "]) !! "" = None)
    by (vm_compute; reflexivity).
  destruct (blank_target_aborts (sample_world sample_fs ["m"; "  "]) "m" "  " []
              Hin Hact Htarget Hfree) as [Hgroup _].
  split; [exact Hin|]. split; [exact Hact|]. split; [exact Htarget|].
  split; [exact Hfree|].
  exact (proj1 (Hgroup "x" [("x/b", "x/a")])).
Defined.

(** The pair of [x/b] answered with [d]. *)
Lemma delete_first_only_witness :
  w_stdin (sample_world sample_fs ["d"]) = ["d"]
  ∧ lower (strip "d") = "d"
  ∧ w_syscalls (handle_pair ("x/b", "x/a") (sample_world sample_fs ["d"])).2
    = [SysRemove "x/b"]
  ∧ w_fs (handle_pair ("x/b", "x/a") (sample_world sample_fs ["d"])).2
      !! "x/b" = None.
Proof.
  assert (Hin : w_stdin (sample_world sample_fs ["d"]) = "d" :: [])
    by reflexivity.
  assert (Hact : lower (strip "d") = "d") by (vm_compute; reflexivity).
  destruct (delete_first_only ("x/b", "x/a") (sample_world sample_fs ["d"])
              "d" [] Hin Hact) as (_ & _ & Hsys & Hfs & _).
  split; [exact Hin|]. split; [exact Hact|]. split; [exact Hsys|].
  exact (Hfs eq_refl).
Defined.



(** A resumed run with interval 0. *)
Lemma zero_interval_raises_witness :
  completion_order reverse
  ∧ submitted (load_progress resumed_temp)
      (scan sample_ignore sample_walk sample_dirs) ≠ []
  ∧ collect_file_info sample_digest 0 sample_ignore sample_walk sample_fs
      resumed_temp sample_dirs reverse = Raise ZeroDivisionError.
Proof.
  assert (Hne : submitted (load_progress resumed_temp)
                  (scan sample_ignore sample_walk sample_dirs) ≠ [])
    by (vm_compute; discriminate).
  split; [exact reverse_completion_order|]. split; [exact Hne|].
  exact (zero_interval_raises sample_digest sample_ignore sample_walk sample_fs
           resumed_temp sample_dirs reverse reverse_completion_order Hne).
Defined.





(** The stale report verified twice. *)
Lemma verify_idempotent_witness :
  dict_wf stale_dict
  ∧ verify_file_info sample_digest sample_fs
      (verify_file_info sample_digest sample_fs stale_dict).1
    = ((verify_file_info sample_digest sample_fs stale_dict).1, []).
Proof.
  assert (Hwf : dict_wf stale_dict) by by_computation.
  split; [exact Hwf|].
  exact (verify_idempotent sample_digest sample_fs stale_dict Hwf).
Defined.

(** The stale report: one record kept, three warnings. *)
Lemma verify_warns_once_per_drop_witness :
  dict_wf stale_dict
  ∧ (length (verify_file_info sample_digest sample_fs stale_dict).1
     + length (filter (λ rec, is_warning rec = true)
                 (verify_file_info sample_digest sample_fs stale_dict).2)
     = length stale_dict)%nat.
Proof.
  assert (Hwf : dict_wf stale_dict) by by_computation.
  split; [exact Hwf|].
  exact (verify_warns_once_per_drop sample_digest sample_fs stale_dict Hwf).
Defined.

(** An ignore list holding the empty string. *)
Lemma empty_prefix_ignores_everything_witness :
  "" ∈ ["."; ""]
  ∧ scan ["."; ""] sample_walk sample_dirs = [].
Proof.
  assert (Hin : "" ∈ ["."; ""]) by by_computation.
  split; [exact Hin|].
  exact (empty_prefix_ignores_everything ["."; ""] sample_walk sample_dirs Hin).
Defined.

(** A bulk move into the existing directory [out]. *)
Lemma bulk_move_isolated_witness :
  w_stdin (sample_world sample_fs ["M"; " out "]) = ["M"; " out "]
  ∧ lower (strip "M") = "m"
  ∧ path_exists (w_fs (sample_world sample_fs ["M"; " out "])) (strip " out ")
    = true
  ∧ (handle_group ("x", [("x/b", "x/a"); ("x/gone", "x/a")])
       (sample_world sample_fs ["M"; " out "])).1 = inr ()
  ∧ w_syscalls
      (handle_group ("x", [("x/b", "x/a"); ("x/gone", "x/a")])
         (sample_world sample_fs ["M"; " out "])).2
    = [SysMove "x/b" "out"; SysMove "x/gone" "out"].
Proof.
  assert (Hin : w_stdin (sample_world sample_fs ["M"; " out "])
                = "M" :: " out " :: []) by reflexivity.
  assert (Hact : lower (strip "M") = "m") by (vm_compute; reflexivity).
  assert (Hex : path_exists (w_fs (sample_world sample_fs ["M"; " out "]))
                  (strip " out ") = true) by (vm_compute; reflexivity).
  destruct (bulk_move_isolated "x" [("x/b", "x/a"); ("x/gone", "x/a")]
              (sample_world sample_fs ["M"; " out "]) "M" " out " []
              Hin Hact Hex) as (Hret & _ & Hsys).
  split; [exact Hin|]. split; [exact Hact|]. split; [exact Hex|].
  split; [exact Hret|exact Hsys].
Defined.
